(** * Block storage of the LevelDB backend of btcdb (ldb/block.go)

    A shallow embedding of the block-storage functions of the LevelDB
    backend: the hash index and the height index kept in one key-value
    store, the pending write batch, the chain-tip cache, and the lookups
    built on them.  Go values are modelled as follows:

    - [int64] is a [Z] kept in the 64-bit two's-complement range by [wrap64];
    - [[]byte] is a [list Byte.byte];
    - [btcwire.ShaHash] (a [[32]byte]) is a list of bytes carrying the proof
      that it has exactly [HashSize] elements;
    - a Go [error] is a value of [error], [nil] is [None];
    - a function with several results returns a tuple; a function that can
      raise a run-time panic returns an [exec];
    - the store handle [db *LevelDb] is a record threaded through the
      functions that assign to its fields or stage writes.

    The store-wide mutex ([db.dbLock]) serialises the public operations; the
    embedding is sequential, so taking and releasing it is not modelled. *)

From Stdlib Require Import ZArith List Lia Bool String Eqdep_dec.
From Stdlib Require Import Strings.Byte.
From stdpp Require Import base option list gmap.

Local Open Scope Z_scope.

(** ** Bytes and 64-bit integers *)

Abbreviation byte := Byte.byte.

#[global] Instance byte_eq_dec : EqDecision byte := Byte.byte_eq_dec.

#[global] Instance byte_countable : Countable byte :=
  inj_countable Byte.to_N Byte.of_N Byte.of_to_N.

(** [byte(v)]: the conversion of an unsigned integer to a byte keeps the low
    eight bits. *)
Definition byte_of_Z (v : Z) : byte :=
  match Byte.of_N (Z.to_N (v mod 256)) with
  | Some b => b
  | None => Byte.x00
  end.

(** [uint64(b)] of a byte. *)
Definition Z_of_byte (b : byte) : Z := Z.of_N (Byte.to_N b).

(** [int64(u)]: reinterpretation in two's complement. *)
Definition wrap64 (z : Z) : Z := (z + 2 ^ 63) mod 2 ^ 64 - 2 ^ 63.

(** [uint64(h)] of an [int64]. *)
Definition uint64 (h : Z) : Z := h mod 2 ^ 64.

Definition int64_range (h : Z) : Prop := - 2 ^ 63 <= h < 2 ^ 63.

(** [binary.LittleEndian.PutUint64]: byte [i] is [byte(v >> (8*i))]. *)
Fixpoint putUintLE (n : nat) (v : Z) : list byte :=
  match n with
  | O => []
  | S n' => byte_of_Z v :: putUintLE n' (Z.shiftr v 8)
  end.

(** [binary.LittleEndian.Uint64]: [b[0] | b[1]<<8 | ...]. *)
Fixpoint uintLE (bs : list byte) : Z :=
  match bs with
  | [] => 0
  | b :: rest => Z.lor (Z_of_byte b) (Z.shiftl (uintLE rest) 8)
  end.

(** [binary.Write(&lw, binary.LittleEndian, blkHeight)] into a fresh
    [bytes.Buffer]: the eight bytes of the height; writing an [int64] into a
    memory buffer has no failing path, the [option] keeps the shape of the
    caller's error check. *)
Definition binary_Write (blkHeight : Z) : option (list byte) :=
  Some (putUintLE 8 (uint64 blkHeight)).

(** [binary.Read(dr, binary.LittleEndian, &blkHeight)] on a buffer holding
    [data]: reads exactly eight bytes ([io.ReadFull]), failing with [io.EOF] or
    [io.ErrUnexpectedEOF] when fewer are there; bytes after the eighth are
    left unread. *)
Definition binary_Read (data : list byte) : option Z :=
  if (length data <? 8)%nat then None
  else Some (wrap64 (uintLE (take 8 data))).

(** ** Hashes *)

Definition HashSize : nat := 32.

Record ShaHash := mkSha {
  sha_bytes : list byte;
  sha_len : Nat.eqb (length sha_bytes) HashSize = true
}.

(** [btcwire.ShaHash{}]: thirty-two zero bytes. *)
Definition zeroSha : ShaHash := mkSha (replicate HashSize Byte.x00) eq_refl.

(** [sha.Bytes()]. *)
Definition Bytes (sha : ShaHash) : list byte := sha_bytes sha.

(** [sha.SetBytes(newHash)]: copies [newHash] when it has [HashSize] bytes and
    otherwise reports an error and leaves the receiver as it was; every call
    in this file drops the returned error. *)
Definition SetBytes (sha : ShaHash) (newHash : list byte) : ShaHash :=
  (if Nat.eqb (length newHash) HashSize as c
      return (Nat.eqb (length newHash) HashSize = c -> ShaHash)
   then fun H => mkSha newHash H
   else fun _ => sha) eq_refl.

(** ** Errors *)

(** The error values that occur in the package. *)
Inductive error :=
  | ErrNotFound                (* leveldb.ErrNotFound, from Get *)
  | ErrStore (msg : string)    (* any other failure of the underlying store *)
  | ErrDbCorrupt0              (* fmt.Errorf("Db Corrupt 0") *)
  | ErrWriteFail               (* fmt.Errorf("Write Fail") *)
  | PrevShaMissing.            (* btcdb.PrevShaMissing *)

(** Modelled from the spec: the error taxonomy of the specification's error
    handling section, and the kind each error value of the package falls in. *)
Inductive ErrorKind := NotFound | Corruption | BrokenChain | StoreFailure.

Definition kindOf (e : error) : ErrorKind :=
  match e with
  | ErrNotFound => NotFound
  | ErrDbCorrupt0 => Corruption
  | PrevShaMissing => BrokenChain
  | ErrStore _ | ErrWriteFail => StoreFailure
  end.

(** A computation that may end in a run-time panic. *)
Inductive exec (A : Type) :=
  | Ret (a : A)
  | Panic (why : string).
Arguments Ret {A} a.
Arguments Panic {A} why.

(** Slice expressions.  [s[0:n]] panics when [n] exceeds the capacity of [s]
    and [s[n:]] when [n] exceeds its length; a value returned by [Get] is taken
    to have no spare capacity, so both bounds are the length. *)
Definition slice_to (s : list byte) (n : nat) : exec (list byte) :=
  if (n <=? length s)%nat then Ret (take n s)
  else Panic "slice bounds out of range".

Definition slice_from (s : list byte) (n : nat) : exec (list byte) :=
  if (n <=? length s)%nat then Ret (drop n s)
  else Panic "slice bounds out of range".

(** ** The underlying key-value store *)

Module leveldb.

(** Modelled from the spec: the raw key-value engine is an external
    collaborator ([get(key) -> bytes | NotFound], [stage_put] into a batch,
    an atomic [commit]).  [table] holds the persisted entries; [broken],
    when set, is a failure of the engine itself, reported by every call. *)
Record DB := mkDB {
  table : gmap (list byte) (list byte);
  broken : option string
}.

(** [lDb.Get(key, ro)]. *)
Definition Get (d : DB) (key : list byte) : list byte * option error :=
  match broken d with
  | Some msg => ([], Some (ErrStore msg))
  | None =>
      match table d !! key with
      | Some v => (v, None)
      | None => ([], Some ErrNotFound)
      end
  end.

(** A write batch: the staged puts, oldest first. *)
Definition Batch := list (list byte * list byte).

(** [batch.Put(key, value)]. *)
Definition Put (b : Batch) (key value : list byte) : Batch :=
  b ++ [(key, value)].

(** The table after the puts of a batch, applied in order. *)
Definition apply (b : Batch) (t : gmap (list byte) (list byte))
  : gmap (list byte) (list byte) :=
  fold_left (fun m kv => <[kv.1 := kv.2]> m) b t.

(** Modelled from the spec: [commit(batch) -> atomic success/failure]
    ([lDb.Write(batch, wo)]): on success every put of the batch is applied,
    on failure none is. *)
Definition Write (d : DB) (b : Batch) : DB * option error :=
  match broken d with
  | Some msg => (d, Some (ErrStore msg))
  | None => (mkDB (apply b (table d)) None, None)
  end.

End leveldb.

(** ** The store handle *)

(** The fields of [LevelDb] that the block functions read or assign:
    the store, the pending batch ([db.lBatch()]) and the chain-tip cache. *)
Record LevelDb := mkLevelDb {
  lDb : leveldb.DB;
  lbatch : leveldb.Batch;
  lastBlkShaCached : bool;
  lastBlkSha : ShaHash;
  lastBlkIdx : Z;
  nextBlock : Z
}.

(** Modelled from the spec: the handle of a store in which no block was ever
    inserted (the constructor is not part of these sources): nothing persisted,
    nothing staged, tip height [-1], next height [0]. *)
Definition emptyDb : LevelDb :=
  mkLevelDb (leveldb.mkDB ∅ None) [] false zeroSha (-1) 0.

(** Modelled from the spec: the externally triggered flush of the pending
    batch.  A successful commit applies every staged put and leaves the batch
    empty; a failed one changes nothing. *)
Definition commit (db : LevelDb) : LevelDb * option error :=
  match leveldb.Write (lDb db) (lbatch db) with
  | (d, None) =>
      (mkLevelDb d [] (lastBlkShaCached db) (lastBlkSha db)
         (lastBlkIdx db) (nextBlock db), None)
  | (_, Some e) => (db, Some e)
  end.

Section BlockStore.

(** The key codec, the open-end sentinel [btcdb.AllShas] and the largest
    capacity the run time accepts for a slice of hashes are declared
    outside these sources; the functions below take them as they are. *)
Variable shaBlkToKey : ShaHash -> list byte.
Variable int64ToKey : Z -> list byte.
Variable AllShas : Z.
Variable maxCap : Z.

Definition getBlkLoc (db : LevelDb) (sha : ShaHash) : Z * option error :=
  let key := shaBlkToKey sha in
  match leveldb.Get (lDb db) key with
  | (_, Some err) => (0, Some err)
  | (data, None) =>
      match binary_Read data with
      | None => (0, Some ErrDbCorrupt0)
      | Some blkHeight => (blkHeight, None)
      end
  end.

(** [FetchBlockHeightBySha] (height_by_hash). *)
Definition FetchBlockHeightBySha (db : LevelDb) (sha : ShaHash)
  : Z * option error :=
  getBlkLoc db sha.

Definition getBlkByHeight (db : LevelDb) (blkHeight : Z)
  : exec (option ShaHash * list byte * option error) :=
  let key := int64ToKey blkHeight in
  match leveldb.Get (lDb db) key with
  | (_, Some err) => Ret (None, [], Some err)
  | (blkVal, None) =>
      match slice_to blkVal 32 with
      | Panic why => Panic why
      | Ret prefix =>
          let sha := SetBytes zeroSha prefix in
          match slice_from blkVal 32 with
          | Panic why => Panic why
          | Ret blockdata => Ret (Some sha, blockdata, None)
          end
      end
  end.

(** On either error the bare [return] hands back the named results
    [rblkHeight] and [rbuf], which are never assigned: [0] and [nil]. *)
Definition getBlk (db : LevelDb) (sha : ShaHash)
  : exec (Z * list byte * option error) :=
  match getBlkLoc db sha with
  | (_, Some err) => Ret (0, [], Some err)
  | (blkHeight, None) =>
      match getBlkByHeight db blkHeight with
      | Panic why => Panic why
      | Ret (_, _, Some err) => Ret (0, [], Some err)
      | Ret (_, buf, None) => Ret (blkHeight, buf, None)
      end
  end.

Definition setBlk (db : LevelDb) (sha : ShaHash) (blkHeight : Z)
    (buf : list byte) : LevelDb * option error :=
  match binary_Write blkHeight with
  | None => (db, Some ErrWriteFail)
  | Some lw =>
      let shaKey := shaBlkToKey sha in
      let blkKey := int64ToKey blkHeight in
      let shaB := Bytes sha in
      let blkVal := shaB ++ buf in
      let batch1 := leveldb.Put (lbatch db) shaKey lw in
      let batch2 := leveldb.Put batch1 blkKey blkVal in
      (mkLevelDb (lDb db) batch2 (lastBlkShaCached db) (lastBlkSha db)
         (lastBlkIdx db) (nextBlock db), None)
  end.

(** [insertBlockData] (insert): the predecessor lookup, the height
    assignment, the two staged writes and, last, the tip cache. *)
Definition insertBlockData (db : LevelDb) (sha prevSha : ShaHash)
    (buf : list byte) : LevelDb * (Z * option error) :=
  let '(oBlkHeight0, err) := getBlkLoc db prevSha in
  let checked :=
    match err with
    | Some e => if negb (nextBlock db =? 0) then inl e else inr (-1)
    | None => inr oBlkHeight0
    end in
  match checked with
  | inl e => (db, (0, Some e))
  | inr oBlkHeight =>
      let blkHeight := wrap64 (oBlkHeight + 1) in
      match setBlk db sha blkHeight buf with
      | (db1, Some e) => (db1, (0, Some e))
      | (db1, None) =>
          (mkLevelDb (lDb db1) (lbatch db1) true sha blkHeight
             (wrap64 (blkHeight + 1)),
           (blkHeight, None))
      end
  end.

(** [fetchSha] (block_by_hash, before the record is parsed). *)
Definition fetchSha (db : LevelDb) (sha : ShaHash)
  : exec (list byte * Z * option error) :=
  match getBlk db sha with
  | Panic why => Panic why
  | Ret (blkHeight, _, Some err) => Ret ([], 0, Some err)
  | Ret (blkHeight, buf, None) => Ret (buf, blkHeight, None)
  end.

Definition blkExistsSha (db : LevelDb) (sha : ShaHash) : bool :=
  match getBlkLoc db sha with
  | (_, Some _) => false
  | (_, None) => true
  end.

(** [ExistsSha] (exists). *)
Definition ExistsSha (db : LevelDb) (sha : ShaHash) : bool :=
  blkExistsSha db sha.

(** [fetchBlockShaByHeight] (hash_by_height). *)
Definition fetchBlockShaByHeight (db : LevelDb) (height : Z)
  : exec (option ShaHash * option error) :=
  let key := int64ToKey height in
  match leveldb.Get (lDb db) key with
  | (_, Some err) => Ret (None, Some err)
  | (blkVal, None) =>
      match slice_to blkVal 32 with
      | Panic why => Panic why
      | Ret prefix => Ret (Some (SetBytes zeroSha prefix), None)
      end
  end.

Definition FetchBlockShaByHeight (db : LevelDb) (height : Z)
  : exec (option ShaHash * option error) :=
  fetchBlockShaByHeight db height.

(** The loop of [FetchHeightRange]: [height] runs from [startHeight] while
    [height < endidx], so [count], the iterations left, starts at
    [endidx - startHeight] (none when that is negative); one [Get] per height,
    and the loop is left at the first one that fails. *)
Fixpoint heightLoop (db : LevelDb) (count : nat) (height : Z)
    (shalist : list ShaHash) : exec (list ShaHash) :=
  match count with
  | O => Ret shalist
  | S count' =>
      let key := int64ToKey height in
      match leveldb.Get (lDb db) key with
      | (_, Some lerr) => Ret shalist
      | (blkVal, None) =>
          match slice_to blkVal 32 with
          | Panic why => Panic why
          | Ret prefix =>
              heightLoop db count' (wrap64 (height + 1))
                (shalist ++ [SetBytes zeroSha prefix])
          end
      end
  end.

(** [make([]btcwire.ShaHash, 0, n)]: a run-time panic when the capacity is
    negative or more than the run time can allocate. *)
Definition makeslice_ok (n : Z) : bool := (0 <=? n) && (n <=? maxCap).

(** [FetchHeightRange] (range).  The named result [err] is never assigned,
    so the error result is always [nil]. *)
Definition FetchHeightRange (db : LevelDb) (startHeight endHeight : Z)
  : exec (list ShaHash * option error) :=
  let endidx :=
    if endHeight =? AllShas then wrap64 (startHeight + 500)
    else endHeight in
  if makeslice_ok (wrap64 (endidx - startHeight)) then
    match heightLoop db (Z.to_nat (endidx - startHeight)) startHeight [] with
    | Panic why => Panic why
    | Ret shalist => Ret (shalist, None)
    end
  else Panic "makeslice: cap out of range".

(** [NewestSha] (newest). *)
Definition NewestSha (db : LevelDb) : ShaHash * Z * option error :=
  if lastBlkIdx db =? -1 then (zeroSha, -1, None)
  else (lastBlkSha db, lastBlkIdx db, None).

(** ** Histories of operations *)

(** The operations that change the handle: an insert, and the external commit
    of the pending batch.  The lookups above are functions of the handle alone
    (their bodies assign no field and stage no write), so a history of public
    operations is, for the state it leads to, a list of these two. *)
Inductive op :=
  | OpInsert (sha prevSha : ShaHash) (buf : list byte)
  | OpCommit.

Definition step (db : LevelDb) (o : op) : LevelDb :=
  match o with
  | OpInsert sha prevSha buf => (insertBlockData db sha prevSha buf).1
  | OpCommit => (commit db).1
  end.

Definition run (db : LevelDb) (ops : list op) : LevelDb :=
  fold_left step ops db.

(** The puts an operation adds to the pending batch. *)
Definition staged (db : LevelDb) (o : op) : leveldb.Batch :=
  match o with
  | OpInsert _ _ _ => drop (length (lbatch db)) (lbatch (step db o))
  | OpCommit => []
  end.

(** All puts staged along a history. *)
Fixpoint stagedBy (db : LevelDb) (ops : list op) : leveldb.Batch :=
  match ops with
  | [] => []
  | o :: rest => staged db o ++ stagedBy (step db o) rest
  end.

(** The hash and the height of the last insert of a history that succeeded,
    [last] when there is none. *)
Fixpoint lastInserted (db : LevelDb) (ops : list op)
    (last : option (ShaHash * Z)) : option (ShaHash * Z) :=
  match ops with
  | [] => last
  | o :: rest =>
      lastInserted (step db o) rest
        match o with
        | OpInsert sha prevSha buf =>
            match insertBlockData db sha prevSha buf with
            | (_, (blkHeight, None)) => Some (sha, blkHeight)
            | (_, (_, Some _)) => last
            end
        | OpCommit => last
        end
  end.

(** What [NewestSha] is expected to answer for a last successful insert. *)
Definition tipOf (last : option (ShaHash * Z)) : ShaHash * Z * option error :=
  match last with
  | None => (zeroSha, -1, None)
  | Some (sha, blkHeight) => (sha, blkHeight, None)
  end.

(** ** Pairing of the two indexes *)

(** The two puts of one insert at height [h]. *)
Definition entryPair (sha : ShaHash) (h : Z) (buf : list byte)
  : leveldb.Batch :=
  [(shaBlkToKey sha, putUintLE 8 (uint64 h));
   (int64ToKey h, Bytes sha ++ buf)].

(** A table is paired when every hash entry holds an encoded height (one that
    satisfies [P]) at which a height entry exists, and every height entry
    starts with a hash that has a hash entry. *)
Definition wellPaired (P : Z -> Prop) (t : gmap (list byte) (list byte))
  : Prop :=
  (forall sha v, t !! shaBlkToKey sha = Some v ->
     exists h, v = putUintLE 8 (uint64 h) /\ P h /\
               is_Some (t !! int64ToKey h)) /\
  (forall h v, t !! int64ToKey h = Some v ->
     exists sha buf, v = Bytes sha ++ buf /\
                     is_Some (t !! shaBlkToKey sha)).

(** A batch made of the entry pairs of inserts, oldest first. *)
Inductive pairsBatch (P : Z -> Prop) : leveldb.Batch -> Prop :=
  | pairsBatch_nil : pairsBatch P []
  | pairsBatch_snoc b sha h buf :
      pairsBatch P b -> P h -> pairsBatch P (b ++ entryPair sha h buf).

(** The invariant of a handle: a paired store and a pending batch made of
    entry pairs, all heights satisfying [P]. *)
Definition paired (P : Z -> Prop) (db : LevelDb) : Prop :=
  wellPaired P (leveldb.table (lDb db)) /\ pairsBatch P (lbatch db).

(** The observable form of the pairing, through the lookups themselves:
    a hash whose height is found has a record at that height, and the hash
    found at a height has a height. *)
Definition pairedLookups (db : LevelDb) : Prop :=
  (forall sha h, getBlkLoc db sha = (h, None) ->
     exists sha' buf, getBlkByHeight db h = Ret (Some sha', buf, None)) /\
  (forall h sha buf, getBlkByHeight db h = Ret (Some sha, buf, None) ->
     exists h', getBlkLoc db sha = (h', None)).

(** The stronger pairing of the specification's first invariant: the hash
    stored at the height of a hash is that very hash, and the height of the
    hash stored at a height is that very height. *)
Definition exactlyPaired (db : LevelDb) : Prop :=
  (forall sha h, getBlkLoc db sha = (h, None) ->
     exists buf, getBlkByHeight db h = Ret (Some sha, buf, None)) /\
  (forall h sha buf, int64_range h ->
     getBlkByHeight db h = Ret (Some sha, buf, None) ->
     getBlkLoc db sha = (h, None)).

(** The same on a table: the two entries of a block name each other. *)
Definition exactTable (t : gmap (list byte) (list byte)) : Prop :=
  (forall sha v, t !! shaBlkToKey sha = Some v ->
     exists h buf, v = putUintLE 8 (uint64 h) /\ int64_range h /\
                   t !! int64ToKey h = Some (Bytes sha ++ buf)) /\
  (forall h v, t !! int64ToKey h = Some v ->
     exists sha buf h', v = Bytes sha ++ buf /\ int64_range h' /\
                        int64ToKey h' = int64ToKey h /\
                        t !! shaBlkToKey sha = Some (putUintLE 8 (uint64 h'))).

(** The table as the next commit would leave it. *)
Definition virtualTable (db : LevelDb) : gmap (list byte) (list byte) :=
  leveldb.apply (lbatch db) (leveldb.table (lDb db)).

(** A history in which no successful insert is given a hash, or assigned a
    height, whose key is already persisted or pending. *)
Fixpoint freshHistory (db : LevelDb) (ops : list op) : Prop :=
  match ops with
  | [] => True
  | o :: rest =>
      match o with
      | OpInsert sha prevSha buf =>
          match insertBlockData db sha prevSha buf with
          | (_, (h, None)) =>
              virtualTable db !! shaBlkToKey sha = None /\
              virtualTable db !! int64ToKey h = None
          | (_, (_, Some _)) => True
          end
      | OpCommit => True
      end /\ freshHistory (step db o) rest
  end.

End BlockStore.

(** ** A sample instance *)

Module Sample.

(** Modelled from the spec: the key codec is declared outside these sources;
    the specification asks for fixed-format encodings of the two namespaces
    that cannot overlap, for instance by distinct lengths.  Here a hash key is
    the thirty-two raw bytes of the hash and a height key the eight
    little-endian bytes of the height. *)
Definition shaBlkToKey (sha : ShaHash) : list byte := Bytes sha.

Definition int64ToKey (h : Z) : list byte := putUintLE 8 (uint64 h).

(** Modelled from the spec: the distinguished open-end sentinel; the largest
    [int64] is used here. *)
Definition AllShas : Z := 2 ^ 63 - 1.

(** A capacity limit for slices of hashes. *)
Definition maxCap : Z := 2 ^ 42.

(** Hashes and records for the examples. *)
Definition shaOf (b : byte) : ShaHash := mkSha (replicate HashSize b) eq_refl.

Definition shaA : ShaHash := shaOf Byte.x0a.
Definition shaB : ShaHash := shaOf Byte.x0b.
Definition shaC : ShaHash := shaOf Byte.x0c.
Definition shaX : ShaHash := shaOf Byte.xff.

Definition recA : list byte := [Byte.x01; Byte.x02; Byte.x03].
Definition recB : list byte := [Byte.x04; Byte.x05].
Definition recC : list byte := [Byte.x06].

(** A genesis block, then two blocks that both name it as predecessor, each
    insert followed by a commit. *)
Definition forkOps : list op :=
  [OpInsert shaA shaX recA; OpCommit;
   OpInsert shaB shaA recB; OpCommit;
   OpInsert shaC shaA recC; OpCommit].

(** The handle after the genesis block [shaA] was inserted and committed. *)
Definition nonEmptyDb : LevelDb :=
  run shaBlkToKey int64ToKey emptyDb [OpInsert shaA shaX recA; OpCommit].

(** A chain of three blocks, each on the one before, each insert followed
    by a commit. *)
Definition chainOps : list op :=
  [OpInsert shaA shaX recA; OpCommit;
   OpInsert shaB shaA recB; OpCommit;
   OpInsert shaC shaB recC; OpCommit].

(** A handle whose engine fails. *)
Definition brokenDb : LevelDb :=
  mkLevelDb (leveldb.mkDB ∅ (Some "closed"%string)) [] false zeroSha (-1) 0.

(** A handle with a three-byte payload under the key of height [0] and under
    the key of [shaA]. *)
Definition damagedDb : LevelDb :=
  mkLevelDb
    (leveldb.mkDB (<[int64ToKey 0 := recA]> (<[shaBlkToKey shaA := recA]> ∅))
       None)
    [] false zeroSha (-1) 0.

End Sample.

(** ** Blocks and headers by hash *)

Section BlockParsing.

(** [btcutil.Block], [btcwire.BlockHeader] and their parsers belong to other
    packages; the two functions below take them as they are.  A parser
    returns the parsed value or its own error (and then no value). *)
Variable shaBlkToKey : ShaHash -> list byte.
Variable int64ToKey : Z -> list byte.
Variable Block : Type.
Variable BlockHeader : Type.
Variable ParseError : Type.
Variable NewBlockFromBytes : list byte -> Block + ParseError.
Variable SetHeight : Block -> Z -> Block.
Variable Deserialize : list byte -> BlockHeader + ParseError.

(** [fetchBlockBySha] ([FetchBlockBySha] under the lock): the record of the
    hash, parsed, with the height of the hash set on the block. *)
Definition fetchBlockBySha (db : LevelDb) (sha : ShaHash)
  : exec (option Block * option (error + ParseError)) :=
  match fetchSha shaBlkToKey int64ToKey db sha with
  | Panic why => Panic why
  | Ret (_, _, Some err) => Ret (None, Some (inl err))
  | Ret (buf, height, None) =>
      match NewBlockFromBytes buf with
      | inr err => Ret (None, Some (inr err))
      | inl blk => Ret (Some (SetHeight blk height), None)
      end
  end.

Definition FetchBlockBySha (db : LevelDb) (sha : ShaHash)
  : exec (option Block * option (error + ParseError)) :=
  fetchBlockBySha db sha.

(** [FetchBlockHeaderBySha]: the record of the hash, of which the header
    part is parsed. *)
Definition FetchBlockHeaderBySha (db : LevelDb) (sha : ShaHash)
  : exec (option BlockHeader * option (error + ParseError)) :=
  match fetchSha shaBlkToKey int64ToKey db sha with
  | Panic why => Panic why
  | Ret (_, _, Some err) => Ret (None, Some (inl err))
  | Ret (buf, _, None) =>
      match Deserialize buf with
      | inr err => Ret (None, Some (inr err))
      | inl blockHeader => Ret (Some blockHeader, None)
      end
  end.

End BlockParsing.

(** ** Contiguity of heights *)

Section Contiguity.

Variable int64ToKey : Z -> list byte.

(** A height below [bound] under which every height from [0] on has a
    height-index entry in the table. *)
Definition filledBelow (t : gmap (list byte) (list byte)) (bound : Z)
  : Z -> Prop :=
  fun h => 0 <= h < bound /\
           forall k, 0 <= k < h -> is_Some (t !! int64ToKey k).

End Contiguity.

(** ** More sample values *)

Module Cases.

(** A sample block type: the bytes it was parsed from and its height; a
    record parses as a block when it is not empty, and its first two bytes are
    its header. *)
Definition Block : Type := list byte * Z.
Definition BlockHeader : Type := list byte.
Definition ParseError : Type := unit.

Definition NewBlockFromBytes (b : list byte) : Block + ParseError :=
  match b with
  | [] => inr tt
  | _ => inl (b, -1)
  end.

Definition SetHeight (blk : Block) (h : Z) : Block := (blk.1, h).

Definition Deserialize (b : list byte) : BlockHeader + ParseError :=
  if (2 <=? length b)%nat then inl (take 2 b) else inr tt.

(** The genesis insert of the sample history, and the handle after it. *)
Definition genesisStaged : LevelDb :=
  (insertBlockData Sample.shaBlkToKey Sample.int64ToKey emptyDb
     Sample.shaA Sample.shaX Sample.recA).1.

(** A handle in which the hash-index entry of [shaA] holds height [-2], with
    a height-index entry at [-2]. *)
Definition belowZeroDb : LevelDb :=
  mkLevelDb
    (leveldb.mkDB
       (<[Sample.int64ToKey (-2) := Bytes Sample.shaA ++ Sample.recA]>
          (<[Sample.shaBlkToKey Sample.shaA := putUintLE 8 (uint64 (-2))]> ∅))
       None)
    [] true Sample.shaA (-2) (-1).

End Cases.

(** * Properties *)

(** ** Bytes and little-endian integers *)

Lemma Z_of_byte_range (b : byte) : 0 <= Z_of_byte b < 256.
Proof.
  unfold Z_of_byte. pose proof (Byte.to_N_bounded b) as Hb. lia.
Qed.

Lemma Z_of_byte_of_Z (v : Z) : Z_of_byte (byte_of_Z v) = v mod 256.
Proof.
  unfold byte_of_Z, Z_of_byte.
  pose proof (Z.mod_pos_bound v 256 eq_refl) as Hm.
  destruct (Byte.of_N (Z.to_N (v mod 256))) as [b|] eqn:E.
  - apply Byte.to_of_N in E. rewrite E. lia.
  - apply Byte.of_N_None_iff in E. lia.
Qed.

Lemma lor_shiftl_8 (a b : Z) :
  0 <= a < 256 -> 0 <= b -> Z.lor a (Z.shiftl b 8) = a + 256 * b.
Proof.
  intros Ha Hb.
  rewrite Z.shiftl_mul_pow2 by lia.
  change (2 ^ 8) with 256.
  rewrite <- Z.lxor_lor, <- Z.add_nocarry_lxor; [lia | |];
    apply Z.bits_inj'; intros n Hn; rewrite Z.land_spec, Z.bits_0;
    destruct (Z.lt_ge_cases n 8) as [Hlt|Hge].
  1,3: replace (b * 256) with (b * 2 ^ 8) by lia;
       rewrite (Z.mul_pow2_bits_low b 8 n) by lia; apply andb_false_r.
  all: rewrite (Z.bits_above_log2 a n); [reflexivity | lia |].
  all: destruct (Z.eq_dec a 0) as [->|Hne]; [simpl; lia|].
  all: apply Z.log2_lt_pow2; [lia|].
  all: apply Z.lt_le_trans with (2 ^ 8); [simpl; lia | apply Z.pow_le_mono_r; lia].
Qed.

Lemma uintLE_nonneg (bs : list byte) : 0 <= uintLE bs.
Proof.
  induction bs as [|b bs IH]; simpl; [lia|].
  pose proof (Z_of_byte_range b). rewrite lor_shiftl_8 by lia. lia.
Qed.

Lemma length_putUintLE (n : nat) (v : Z) : length (putUintLE n v) = n.
Proof. revert v. induction n as [|n IH]; intros v; simpl; [|rewrite IH]; reflexivity. Qed.

Lemma uintLE_putUintLE (n : nat) (v : Z) :
  0 <= v -> uintLE (putUintLE n v) = v mod 2 ^ (8 * Z.of_nat n).
Proof.
  revert v. induction n as [|n IH]; intros v Hv.
  - simpl. rewrite Z.mod_1_r. reflexivity.
  - cbn [putUintLE uintLE].
    rewrite Z.shiftr_div_pow2 by lia. change (2 ^ 8) with 256.
    assert (0 <= v / 256) as Hq by (apply Z.div_pos; lia).
    rewrite IH by exact Hq.
    rewrite Z_of_byte_of_Z.
    pose proof (Z.mod_pos_bound v 256 eq_refl).
    assert (0 < 2 ^ (8 * Z.of_nat n)) as Hp by (apply Z.pow_pos_nonneg; lia).
    pose proof (Z.mod_pos_bound (v / 256) _ Hp).
    rewrite lor_shiftl_8 by lia.
    replace (8 * Z.of_nat (S n)) with (8 + 8 * Z.of_nat n) by lia.
    rewrite Z.pow_add_r by lia. change (2 ^ 8) with 256.
    rewrite Z.rem_mul_r by lia. reflexivity.
Qed.

Lemma wrap64_range (z : Z) : int64_range (wrap64 z).
Proof.
  unfold int64_range, wrap64.
  pose proof (Z.mod_pos_bound (z + 2 ^ 63) (2 ^ 64) eq_refl). lia.
Qed.

Lemma wrap64_id (z : Z) : int64_range z -> wrap64 z = z.
Proof.
  unfold int64_range, wrap64. intros H.
  rewrite Z.mod_small by lia. lia.
Qed.

Lemma wrap64_uint64 (h : Z) : int64_range h -> wrap64 (uint64 h) = h.
Proof.
  unfold int64_range, wrap64, uint64. intros H.
  rewrite Zplus_mod_idemp_l. rewrite Z.mod_small by lia. lia.
Qed.

(** Reading back what [binary_Write] wrote gives the height written, also
    when more bytes follow. *)
Lemma binary_Read_putUintLE (h : Z) (rest : list byte) :
  int64_range h -> binary_Read (putUintLE 8 (uint64 h) ++ rest) = Some h.
Proof.
  intros Hh. unfold binary_Read.
  rewrite length_app, length_putUintLE.
  destruct (Nat.ltb_spec (8 + length rest) 8) as [Hlt|_]; [lia|].
  rewrite take_app_length' by (symmetry; apply length_putUintLE).
  pose proof (Z.mod_pos_bound h (2 ^ 64) eq_refl) as Hm.
  rewrite uintLE_putUintLE by (unfold uint64; lia).
  change (8 * Z.of_nat 8) with 64.
  unfold uint64 at 1. rewrite Z.mod_mod by lia.
  fold (uint64 h). rewrite wrap64_uint64 by exact Hh. reflexivity.
Qed.

Lemma binary_Read_None (data : list byte) :
  binary_Read data = None <-> (length data < 8)%nat.
Proof.
  unfold binary_Read.
  destruct (Nat.ltb_spec (length data) 8); split; intros; try lia; congruence.
Qed.

Lemma binary_Read_range (data : list byte) (h : Z) :
  binary_Read data = Some h -> int64_range h.
Proof.
  unfold binary_Read. destruct (length data <? 8)%nat; [discriminate|].
  intros [= <-]. apply wrap64_range.
Qed.

(** ** Hashes *)

Lemma ShaHash_eq (a b : ShaHash) : sha_bytes a = sha_bytes b -> a = b.
Proof.
  destruct a as [la Ha], b as [lb Hb]. simpl. intros ->.
  f_equal. apply UIP_dec. apply Bool.bool_dec.
Qed.

Lemma length_Bytes (sha : ShaHash) : length (Bytes sha) = 32%nat.
Proof. destruct sha as [l H]. simpl. apply Nat.eqb_eq in H. exact H. Qed.

Lemma sha_bytes_SetBytes (sha : ShaHash) (b : list byte) :
  length b = 32%nat -> sha_bytes (SetBytes sha b) = b.
Proof.
  intros Hb. unfold SetBytes.
  generalize (eq_refl (Nat.eqb (length b) HashSize)).
  generalize (Nat.eqb (length b) HashSize) at 2 3.
  intros [|] E; [reflexivity|].
  apply Nat.eqb_neq in E. unfold HashSize in E. lia.
Qed.

Lemma SetBytes_Bytes (z sha : ShaHash) : SetBytes z (Bytes sha) = sha.
Proof. apply ShaHash_eq, sha_bytes_SetBytes, length_Bytes. Qed.

(** ** The store primitive *)

Lemma Get_found (d : leveldb.DB) (key v : list byte) :
  leveldb.Get d key = (v, None) <->
  leveldb.broken d = None /\ leveldb.table d !! key = Some v.
Proof.
  unfold leveldb.Get.
  destruct (leveldb.broken d) as [msg|]; [split; [discriminate | intros [? _]; discriminate]|].
  destruct (leveldb.table d !! key) as [w|]; split.
  - intros [= ->]. auto.
  - intros [_ [= ->]]. reflexivity.
  - discriminate.
  - intros [_ ?]. discriminate.
Qed.

Lemma Get_error (d : leveldb.DB) (key v : list byte) (e : error) :
  leveldb.Get d key = (v, Some e) ->
  v = [] /\
  ((e = ErrNotFound /\ leveldb.broken d = None /\ leveldb.table d !! key = None)
   \/ (exists msg, e = ErrStore msg /\ leveldb.broken d = Some msg)).
Proof.
  unfold leveldb.Get.
  destruct (leveldb.broken d) as [msg|].
  - intros [= <- <-]. split; [reflexivity|]. right. eauto.
  - destruct (leveldb.table d !! key) as [w|]; [discriminate|].
    intros [= <- <-]. auto.
Qed.

Lemma Get_error_kind (d : leveldb.DB) (key v : list byte) (e : error) :
  leveldb.Get d key = (v, Some e) ->
  kindOf e = NotFound \/ kindOf e = StoreFailure.
Proof.
  intros H. apply Get_error in H as [_ [[-> _]|[msg [-> _]]]]; simpl; auto.
Qed.

Lemma lookup_apply_inv (b : leveldb.Batch) (t : gmap (list byte) (list byte))
    (k v : list byte) :
  leveldb.apply b t !! k = Some v -> t !! k = Some v \/ (k, v) ∈ b.
Proof.
  unfold leveldb.apply. revert t.
  induction b as [|[k' v'] b IH]; intros t; simpl; [auto|].
  intros H. apply IH in H as [H|H].
  - rewrite lookup_insert in H. case_decide as E; simpl in *.
    + injection H as <-. subst k'. right. left.
    + auto.
  - right. right. exact H.
Qed.

Lemma lookup_apply_is_Some (b : leveldb.Batch)
    (t : gmap (list byte) (list byte)) (k : list byte) :
  is_Some (t !! k) -> is_Some (leveldb.apply b t !! k).
Proof.
  unfold leveldb.apply. revert t.
  induction b as [|[k' v'] b IH]; intros t; simpl; [auto|].
  intros H. apply IH. rewrite lookup_insert. case_decide; simpl; eauto.
Qed.

Lemma apply_app (b1 b2 : leveldb.Batch) (t : gmap (list byte) (list byte)) :
  leveldb.apply (b1 ++ b2) t = leveldb.apply b2 (leveldb.apply b1 t).
Proof. unfold leveldb.apply. apply fold_left_app. Qed.

(** A commit touches neither the tip cache nor the next height; when it
    succeeds it applies the pending batch and empties it. *)
Lemma commit_spec (db : LevelDb) :
  let db' := (commit db).1 in
  lastBlkShaCached db' = lastBlkShaCached db /\
  lastBlkSha db' = lastBlkSha db /\
  lastBlkIdx db' = lastBlkIdx db /\
  nextBlock db' = nextBlock db /\
  ((leveldb.broken (lDb db) = None /\ (commit db).2 = None /\
    lDb db' = leveldb.mkDB (leveldb.apply (lbatch db) (leveldb.table (lDb db))) None /\
    lbatch db' = [])
   \/ (exists msg, leveldb.broken (lDb db) = Some msg /\
       (commit db).2 = Some (ErrStore msg) /\ db' = db)).
Proof.
  unfold commit, leveldb.Write.
  destruct (leveldb.broken (lDb db)) as [msg|] eqn:E; simpl.
  - repeat split. right. eauto.
  - repeat split. left. auto.
Qed.

Section Properties.

Variable shaBlkToKey : ShaHash -> list byte.
Variable int64ToKey : Z -> list byte.
Variable AllShas : Z.
Variable maxCap : Z.

(** ** Lookups by hash *)

Lemma getBlkLoc_found (db : LevelDb) (sha : ShaHash) (h : Z) :
  getBlkLoc shaBlkToKey db sha = (h, None) <->
  exists data, leveldb.Get (lDb db) (shaBlkToKey sha) = (data, None) /\
               binary_Read data = Some h.
Proof.
  unfold getBlkLoc.
  destruct (leveldb.Get (lDb db) (shaBlkToKey sha)) as [data [e|]].
  - split; [discriminate | intros (d & [=] & _)].
  - destruct (binary_Read data) as [h'|] eqn:E; split.
    + intros [= ->]. eauto.
    + intros (d & [= <-] & Hd). congruence.
    + discriminate.
    + intros (d & [= <-] & Hd). congruence.
Qed.

Lemma getBlkLoc_error (db : LevelDb) (sha : ShaHash) (h : Z) (e : error) :
  getBlkLoc shaBlkToKey db sha = (h, Some e) ->
  h = 0 /\
  ((exists v, leveldb.Get (lDb db) (shaBlkToKey sha) = (v, Some e))
   \/ (e = ErrDbCorrupt0 /\
       exists data, leveldb.Get (lDb db) (shaBlkToKey sha) = (data, None) /\
                    binary_Read data = None)).
Proof.
  unfold getBlkLoc.
  destruct (leveldb.Get (lDb db) (shaBlkToKey sha)) as [data [e'|]].
  - intros [= <- <-]. eauto.
  - destruct (binary_Read data) as [h'|] eqn:E; [discriminate|].
    intros [= <- <-]. split; [reflexivity|]. right. eauto.
Qed.

(** ** Inserts *)

(** A failing insert returns height [0] and the handle it was given. *)
Lemma insertBlockData_failure (db : LevelDb) (sha prevSha : ShaHash)
    (buf : list byte) (e : error) :
  (insertBlockData shaBlkToKey int64ToKey db sha prevSha buf).2.2 = Some e ->
  insertBlockData shaBlkToKey int64ToKey db sha prevSha buf = (db, (0, Some e)) /\
  (getBlkLoc shaBlkToKey db prevSha).2 = Some e /\ nextBlock db <> 0.
Proof.
  unfold insertBlockData, setBlk, binary_Write.
  destruct (getBlkLoc shaBlkToKey db prevSha) as [o [e'|]]; simpl.
  - destruct (Z.eqb_spec (nextBlock db) 0) as [E|E]; simpl.
    + discriminate.
    + intros [= ->]. auto.
  - discriminate.
Qed.

(** What a successful insert does: the store is left alone, the two puts of
    the block are appended to the pending batch, and the tip cache names the
    block; the height is one more than the predecessor's, or [0] when the
    predecessor lookup failed on an empty chain. *)
Lemma insertBlockData_success (db db' : LevelDb) (sha prevSha : ShaHash)
    (buf : list byte) (h : Z) :
  insertBlockData shaBlkToKey int64ToKey db sha prevSha buf = (db', (h, None)) ->
  db' = mkLevelDb (lDb db)
          (lbatch db ++ entryPair shaBlkToKey int64ToKey sha h buf)
          true sha h (wrap64 (h + 1)) /\
  ((exists o, getBlkLoc shaBlkToKey db prevSha = (o, None) /\ h = wrap64 (o + 1))
   \/ (exists e, (getBlkLoc shaBlkToKey db prevSha).2 = Some e /\
                 nextBlock db = 0 /\ h = 0)).
Proof.
  unfold insertBlockData, setBlk, binary_Write, leveldb.Put, entryPair.
  destruct (getBlkLoc shaBlkToKey db prevSha) as [o [e'|]]; simpl.
  - destruct (Z.eqb_spec (nextBlock db) 0) as [E|E]; simpl; [|discriminate].
    intros [= <- <-]. rewrite <- app_assoc. simpl. split; [reflexivity|].
    right. eauto.
  - intros [= <- <-]. rewrite <- app_assoc. simpl. split; [reflexivity|].
    left. eauto.
Qed.

Lemma insertBlockData_cases (db : LevelDb) (sha prevSha : ShaHash)
    (buf : list byte) :
  (exists e, insertBlockData shaBlkToKey int64ToKey db sha prevSha buf
             = (db, (0, Some e))) \/
  (exists db' h, insertBlockData shaBlkToKey int64ToKey db sha prevSha buf
                 = (db', (h, None))).
Proof.
  destruct (insertBlockData shaBlkToKey int64ToKey db sha prevSha buf)
    as [db' [h [e|]]] eqn:E.
  - left. exists e.
    pose proof (insertBlockData_failure db sha prevSha buf e) as H.
    rewrite E in H. destruct (H eq_refl) as [H' _]. exact H'.
  - right. eauto.
Qed.

(** C1 (as amended).  An insert whose declared predecessor has no hash-index
    entry (the lookup of its key answers not-found) succeeds, with height [0],
    if and only if the chain is empty ([nextBlock] is [0]); on a non-empty
    chain it fails, leaves the handle as it was and returns the error of the
    predecessor lookup itself, which is of the not-found kind: the code has
    no error of its own for a broken chain. *)
Theorem insert_unknown_predecessor (db : LevelDb) (sha prevSha : ShaHash)
    (buf : list byte) :
  (leveldb.Get (lDb db) (shaBlkToKey prevSha)).2 = Some ErrNotFound ->
  ((insertBlockData shaBlkToKey int64ToKey db sha prevSha buf).2 = (0, None)
   <-> nextBlock db = 0) /\
  ((insertBlockData shaBlkToKey int64ToKey db sha prevSha buf).2.2 = None
   <-> nextBlock db = 0) /\
  (nextBlock db <> 0 ->
   insertBlockData shaBlkToKey int64ToKey db sha prevSha buf
   = (db, (0, Some ErrNotFound)) /\ kindOf ErrNotFound = NotFound).
Proof.
  intros Hget.
  assert (getBlkLoc shaBlkToKey db prevSha = (0, Some ErrNotFound)) as Hloc.
  { unfold getBlkLoc.
    destruct (leveldb.Get (lDb db) (shaBlkToKey prevSha)) as [v e].
    simpl in Hget. subst e. reflexivity. }
  unfold insertBlockData, setBlk, binary_Write. rewrite Hloc.
  destruct (Z.eqb_spec (nextBlock db) 0) as [E|E]; simpl.
  - repeat split; auto; intros; congruence.
  - repeat split; auto; intros; try congruence; discriminate.
Qed.

(** C2.  When the predecessor is absent and the chain is not empty, the insert
    fails and returns the very handle it was given: the pending batch, the
    persisted store with both index namespaces, the tip cache and the next
    height are those of before. *)
Theorem rejected_insert_changes_nothing (db : LevelDb) (sha prevSha : ShaHash)
    (buf : list byte) :
  (leveldb.Get (lDb db) (shaBlkToKey prevSha)).2 = Some ErrNotFound ->
  nextBlock db <> 0 ->
  let r := insertBlockData shaBlkToKey int64ToKey db sha prevSha buf in
  r.2.2 = Some ErrNotFound /\
  r.1 = db /\
  lbatch r.1 = lbatch db /\
  lDb r.1 = lDb db /\
  (lastBlkShaCached r.1, lastBlkSha r.1, lastBlkIdx r.1)
  = (lastBlkShaCached db, lastBlkSha db, lastBlkIdx db) /\
  nextBlock r.1 = nextBlock db.
Proof.
  intros Hget Hne r.
  assert (r = (db, (0, Some ErrNotFound))) as ->; [|simpl; auto 10].
  unfold r, insertBlockData, getBlkLoc.
  destruct (leveldb.Get (lDb db) (shaBlkToKey prevSha)) as [v e].
  simpl in Hget. subst e.
  destruct (Z.eqb_spec (nextBlock db) 0); [contradiction | reflexivity].
Qed.

(** C6.  [FetchBlockHeightBySha] fails with an error of the corruption kind
    exactly when the store returns a payload for the key of the hash and that
    payload does not decode as an eight-byte little-endian integer, that is,
    when it has fewer than eight bytes; an absent key fails with the store's
    not-found error, which is of another kind. *)
Theorem height_by_hash_corruption (db : LevelDb) (sha : ShaHash) :
  ((exists e, (FetchBlockHeightBySha shaBlkToKey db sha).2 = Some e /\
              kindOf e = Corruption)
   <-> (exists data,
          leveldb.Get (lDb db) (shaBlkToKey sha) = (data, None) /\
          binary_Read data = None)) /\
  (forall data, binary_Read data = None <-> (length data < 8)%nat) /\
  ((leveldb.Get (lDb db) (shaBlkToKey sha)).2 = Some ErrNotFound ->
   FetchBlockHeightBySha shaBlkToKey db sha = (0, Some ErrNotFound)) /\
  kindOf ErrDbCorrupt0 = Corruption /\
  kindOf ErrNotFound = NotFound /\
  Corruption <> NotFound.
Proof.
  unfold FetchBlockHeightBySha.
  split; [|split; [exact binary_Read_None|split; [|repeat split; discriminate]]].
  - split.
    + intros (e & He & Hk).
      destruct (getBlkLoc shaBlkToKey db sha) as [h e'] eqn:E.
      simpl in He. subst e'.
      apply getBlkLoc_error in E as [_ [[v Hv]|[_ Hd]]]; [|exact Hd].
      apply Get_error_kind in Hv as [Hv|Hv]; congruence.
    + intros (data & Hg & Hd). exists ErrDbCorrupt0.
      unfold getBlkLoc. rewrite Hg, Hd. auto.
  - unfold getBlkLoc.
    destruct (leveldb.Get (lDb db) (shaBlkToKey sha)) as [v e].
    simpl. intros ->. reflexivity.
Qed.

(** C10.  [ExistsSha] answers [true] exactly when the hash-index lookup of the
    hash succeeds, and [false] whenever that lookup fails, whatever the error:
    not found, corrupt payload or a failure of the store.  Its only result is
    the boolean. *)
Theorem exists_collapses_errors (db : LevelDb) (sha : ShaHash) :
  (ExistsSha shaBlkToKey db sha = true
   <-> exists h, getBlkLoc shaBlkToKey db sha = (h, None)) /\
  (forall e, (getBlkLoc shaBlkToKey db sha).2 = Some e ->
             ExistsSha shaBlkToKey db sha = false) /\
  ((leveldb.Get (lDb db) (shaBlkToKey sha)).2 = Some ErrNotFound ->
   ExistsSha shaBlkToKey db sha = false) /\
  (forall data, leveldb.Get (lDb db) (shaBlkToKey sha) = (data, None) ->
                binary_Read data = None ->
                ExistsSha shaBlkToKey db sha = false) /\
  (forall msg, (leveldb.Get (lDb db) (shaBlkToKey sha)).2 = Some (ErrStore msg) ->
               ExistsSha shaBlkToKey db sha = false).
Proof.
  unfold ExistsSha, blkExistsSha, getBlkLoc.
  destruct (leveldb.Get (lDb db) (shaBlkToKey sha)) as [data [e|]]; simpl.
  - repeat split; try discriminate; auto.
    intros [h [=]].
  - destruct (binary_Read data) as [h|] eqn:E; simpl.
    + repeat split; try discriminate; eauto.
      intros d [= <-]. congruence.
    + repeat split; try discriminate; auto.
      intros [h [=]].
Qed.

(** The height of a successful insert is a 64-bit integer. *)
Lemma insertBlockData_height_range (db db' : LevelDb) (sha prevSha : ShaHash)
    (buf : list byte) (h : Z) :
  insertBlockData shaBlkToKey int64ToKey db sha prevSha buf = (db', (h, None)) ->
  int64_range h.
Proof.
  intros H. apply insertBlockData_success in H as [_ [(o & _ & ->)|(e & _ & _ & ->)]].
  - apply wrap64_range.
  - unfold int64_range. lia.
Qed.

(** ** Lookups by height *)

Lemma slice_to_prefix (a b : list byte) :
  length a = 32%nat -> slice_to (a ++ b) 32 = Ret a.
Proof.
  intros Ha. unfold slice_to. rewrite length_app, Ha. simpl.
  rewrite take_app_length' by (symmetry; exact Ha). reflexivity.
Qed.

Lemma slice_from_suffix (a b : list byte) :
  length a = 32%nat -> slice_from (a ++ b) 32 = Ret b.
Proof.
  intros Ha. unfold slice_from. rewrite length_app, Ha. simpl.
  rewrite drop_app_length' by (symmetry; exact Ha). reflexivity.
Qed.

Lemma getBlkByHeight_entry (db : LevelDb) (h : Z) (sha : ShaHash)
    (buf : list byte) :
  leveldb.Get (lDb db) (int64ToKey h) = (Bytes sha ++ buf, None) ->
  getBlkByHeight int64ToKey db h = Ret (Some sha, buf, None).
Proof.
  intros Hg. unfold getBlkByHeight. rewrite Hg.
  rewrite slice_to_prefix, slice_from_suffix by apply length_Bytes.
  rewrite SetBytes_Bytes. reflexivity.
Qed.

Lemma getBlkByHeight_found (db : LevelDb) (h : Z) (sha : ShaHash)
    (buf : list byte) :
  getBlkByHeight int64ToKey db h = Ret (Some sha, buf, None) ->
  exists v, leveldb.Get (lDb db) (int64ToKey h) = (v, None) /\
            (32 <= length v)%nat /\
            sha = SetBytes zeroSha (take 32 v) /\ buf = drop 32 v.
Proof.
  unfold getBlkByHeight, slice_to, slice_from.
  destruct (leveldb.Get (lDb db) (int64ToKey h)) as [v [e|]]; [discriminate|].
  destruct (Nat.leb_spec 32 (length v)) as [Hle|Hlt]; [|discriminate].
  intros [= <- <-]. exists v. auto.
Qed.

Lemma fetchBlockShaByHeight_entry (db : LevelDb) (h : Z) (v : list byte) :
  leveldb.Get (lDb db) (int64ToKey h) = (v, None) ->
  (32 <= length v)%nat ->
  fetchBlockShaByHeight int64ToKey db h
  = Ret (Some (SetBytes zeroSha (take 32 v)), None) /\
  Bytes (SetBytes zeroSha (take 32 v)) = take 32 v.
Proof.
  intros Hg Hv. unfold fetchBlockShaByHeight, slice_to. rewrite Hg.
  destruct (Nat.leb_spec 32 (length v)) as [_|Hlt]; [|lia].
  split; [reflexivity|].
  apply sha_bytes_SetBytes. rewrite length_take. lia.
Qed.

(** ** What the persisted store holds *)

Lemma step_insert_lbatch (db : LevelDb) (sha prevSha : ShaHash)
    (buf : list byte) :
  let o := OpInsert sha prevSha buf in
  lDb (step shaBlkToKey int64ToKey db o) = lDb db /\
  lbatch (step shaBlkToKey int64ToKey db o)
  = lbatch db ++ staged shaBlkToKey int64ToKey db o.
Proof.
  unfold staged. simpl.
  destruct (insertBlockData_cases db sha prevSha buf)
    as [(e & ->)|(db' & h & Hins)]; simpl.
  - rewrite drop_all, app_nil_r. auto.
  - rewrite Hins. simpl. apply insertBlockData_success in Hins as [-> _].
    simpl. rewrite drop_app_length. auto.
Qed.

(** What an insert stages: nothing when it fails, the entry pair of the block
    when it succeeds. *)
Lemma staged_insert (db : LevelDb) (sha prevSha : ShaHash) (buf : list byte) :
  let r := insertBlockData shaBlkToKey int64ToKey db sha prevSha buf in
  (r.2.2 <> None /\
   staged shaBlkToKey int64ToKey db (OpInsert sha prevSha buf) = []) \/
  (r.2.2 = None /\
   staged shaBlkToKey int64ToKey db (OpInsert sha prevSha buf)
   = entryPair shaBlkToKey int64ToKey sha r.2.1 buf).
Proof.
  unfold staged. simpl.
  destruct (insertBlockData_cases db sha prevSha buf)
    as [(e & ->)|(db' & h & Hins)]; simpl.
  - left. rewrite drop_all. split; [discriminate | reflexivity].
  - right. rewrite Hins. simpl. apply insertBlockData_success in Hins as [-> _].
    simpl. rewrite drop_app_length. auto.
Qed.

(** Every entry of the store was there before or was staged by an insert. *)
Lemma run_lookup_origin (ops : list op) (db : LevelDb) (k v : list byte) :
  leveldb.table (lDb (run shaBlkToKey int64ToKey db ops)) !! k = Some v ->
  leveldb.table (lDb db) !! k = Some v \/
  (k, v) ∈ lbatch db ++ stagedBy shaBlkToKey int64ToKey db ops.
Proof.
  revert db. induction ops as [|o ops IH]; intros db H; [left; exact H|].
  cbn [run fold_left] in H. apply IH in H. cbn [stagedBy].
  destruct o as [sha prevSha buf|].
  - destruct (step_insert_lbatch db sha prevSha buf) as [Hd Hb].
    cbv zeta in Hd, Hb. rewrite Hd, Hb, <- app_assoc in H. exact H.
  - simpl in H. simpl.
    pose proof (commit_spec db) as Hc. cbv zeta in Hc.
    destruct Hc as (_ & _ & _ & _ & [(_ & _ & Hd & Hl)|(msg & _ & _ & Hsame)]).
    + rewrite Hd, Hl in H. simpl in H. destruct H as [H|H].
      * apply lookup_apply_inv in H as [H|H]; [auto|].
        right. apply elem_of_app. auto.
      * right. apply elem_of_app. auto.
    + rewrite Hsame in H |- *. exact H.
Qed.

(** No operation removes a key from the store. *)
Lemma run_lookup_kept (ops : list op) (db : LevelDb) (k : list byte) :
  is_Some (leveldb.table (lDb db) !! k) ->
  is_Some (leveldb.table (lDb (run shaBlkToKey int64ToKey db ops)) !! k).
Proof.
  revert db. induction ops as [|o ops IH]; intros db H; [exact H|].
  cbn [run fold_left]. apply IH.
  destruct o as [sha prevSha buf|].
  - destruct (step_insert_lbatch db sha prevSha buf) as [Hd _].
    cbv zeta in Hd. rewrite Hd. exact H.
  - simpl. pose proof (commit_spec db) as Hc. cbv zeta in Hc.
    destruct Hc as (_ & _ & _ & _ & [(_ & _ & Hd & _)|(msg & _ & _ & Hsame)]).
    + rewrite Hd. simpl. apply lookup_apply_is_Some. exact H.
    + rewrite Hsame. exact H.
Qed.

Lemma run_app (db : LevelDb) (ops1 ops2 : list op) :
  run shaBlkToKey int64ToKey db (ops1 ++ ops2)
  = run shaBlkToKey int64ToKey (run shaBlkToKey int64ToKey db ops1) ops2.
Proof. unfold run. apply fold_left_app. Qed.

(** C5 (as amended).  Along every history of inserts and commits from the
    empty store: an insert does not touch the persisted store and stages
    nothing but the two entries of its block; every persisted entry is a put
    staged by an insert of the history; a key that is present stays present,
    whatever follows; and its payload afterwards is the one it had unless a
    put for that same key, pending or staged later by an insert, replaced
    it. *)
Theorem store_only_grows :
  (forall db sha prevSha buf,
     let r := insertBlockData shaBlkToKey int64ToKey db sha prevSha buf in
     lDb r.1 = lDb db /\
     (staged shaBlkToKey int64ToKey db (OpInsert sha prevSha buf) = [] \/
      staged shaBlkToKey int64ToKey db (OpInsert sha prevSha buf)
      = entryPair shaBlkToKey int64ToKey sha r.2.1 buf)) /\
  (forall ops k v,
     leveldb.table (lDb (run shaBlkToKey int64ToKey emptyDb ops)) !! k = Some v ->
     (k, v) ∈ stagedBy shaBlkToKey int64ToKey emptyDb ops) /\
  (forall ops1 ops2 k v,
     let db1 := run shaBlkToKey int64ToKey emptyDb ops1 in
     let db2 := run shaBlkToKey int64ToKey emptyDb (ops1 ++ ops2) in
     leveldb.table (lDb db1) !! k = Some v ->
     exists v',
       leveldb.table (lDb db2) !! k = Some v' /\
       (v' = v \/
        (k, v') ∈ lbatch db1 ++ stagedBy shaBlkToKey int64ToKey db1 ops2)).
Proof.
  split; [|split].
  - intros db sha prevSha buf r. split.
    + exact (proj1 (step_insert_lbatch db sha prevSha buf)).
    + destruct (staged_insert db sha prevSha buf) as [[_ H]|[_ H]]; auto.
  - intros ops k v H. apply run_lookup_origin in H as [H|H].
    + simpl in H. rewrite lookup_empty in H. discriminate.
    + exact H.
  - intros ops1 ops2 k v db1 db2 H.
    assert (is_Some (leveldb.table (lDb db2) !! k)) as [v' Hv'].
    { unfold db2. rewrite run_app. apply run_lookup_kept. fold db1. eauto. }
    exists v'. split; [exact Hv'|].
    unfold db2 in Hv'. rewrite run_app in Hv'. fold db1 in Hv'.
    apply run_lookup_origin in Hv' as [Hv'|Hv']; [left; congruence | auto].
Qed.

Section DisjointKeys.

(** The two key namespaces do not overlap. *)
Hypothesis keys_disjoint : forall sha h, shaBlkToKey sha <> int64ToKey h.

(** C3 (as amended).  After a successful insert that returned height [h], and
    once the pending batch has been committed with no insert in between,
    [fetchSha] of the inserted hash returns the bytes of the record, unchanged,
    together with [h]. *)
Theorem insert_commit_fetch_roundtrip (db db' db'' : LevelDb)
    (sha prevSha : ShaHash) (buf : list byte) (h : Z) :
  insertBlockData shaBlkToKey int64ToKey db sha prevSha buf = (db', (h, None)) ->
  commit db' = (db'', None) ->
  fetchSha shaBlkToKey int64ToKey db'' sha = Ret (buf, h, None).
Proof.
  intros Hins Hcommit.
  pose proof (insertBlockData_height_range _ _ _ _ _ _ Hins) as Hh.
  apply insertBlockData_success in Hins as [-> _].
  pose proof (commit_spec
    (mkLevelDb (lDb db)
       (lbatch db ++ entryPair shaBlkToKey int64ToKey sha h buf)
       true sha h (wrap64 (h + 1)))) as Hc.
  rewrite Hcommit in Hc. simpl in Hc.
  destruct Hc as (_ & _ & _ & _ & [(Hb & _ & Hd & _)|(msg & _ & [=] & _)]).
  rewrite apply_app in Hd. unfold entryPair, leveldb.apply in Hd. simpl in Hd.
  assert (leveldb.Get (lDb db'') (shaBlkToKey sha)
          = (putUintLE 8 (uint64 h), None)) as Hsha.
  { apply Get_found. rewrite Hd. simpl. split; [reflexivity|].
    rewrite lookup_insert_ne by (intros E; exact (keys_disjoint _ _ (eq_sym E))).
    apply lookup_insert_eq. }
  assert (leveldb.Get (lDb db'') (int64ToKey h) = (Bytes sha ++ buf, None))
    as Hblk.
  { apply Get_found. rewrite Hd. simpl. split; [reflexivity|].
    apply lookup_insert_eq. }
  unfold fetchSha, getBlk, getBlkLoc. rewrite Hsha.
  rewrite <- (app_nil_r (putUintLE 8 (uint64 h))).
  rewrite binary_Read_putUintLE by exact Hh.
  rewrite (getBlkByHeight_entry _ _ _ _ Hblk). reflexivity.
Qed.

(** ** The pairing invariant *)

Lemma wellPaired_empty (P : Z -> Prop) :
  wellPaired shaBlkToKey int64ToKey P ∅.
Proof. split; intros ? ? H; rewrite lookup_empty in H; discriminate. Qed.

Lemma wellPaired_mono (P Q : Z -> Prop) (t : gmap (list byte) (list byte)) :
  (forall h, P h -> Q h) ->
  wellPaired shaBlkToKey int64ToKey P t ->
  wellPaired shaBlkToKey int64ToKey Q t.
Proof.
  intros HPQ [H1 H2]. split; [|exact H2].
  intros sha v Hv. destruct (H1 sha v Hv) as (h & -> & Hh & Hs). eauto.
Qed.

Lemma pairsBatch_mono (P Q : Z -> Prop) (b : leveldb.Batch) :
  (forall h, P h -> Q h) ->
  pairsBatch shaBlkToKey int64ToKey P b ->
  pairsBatch shaBlkToKey int64ToKey Q b.
Proof.
  intros HPQ Hb. induction Hb as [|b sha h buf _ IH Hh].
  - constructor.
  - constructor; auto.
Qed.

(** The two puts of one insert keep a paired table paired. *)
Lemma wellPaired_entryPair (P : Z -> Prop) (t : gmap (list byte) (list byte))
    (sha : ShaHash) (h : Z) (buf : list byte) :
  wellPaired shaBlkToKey int64ToKey P t -> P h ->
  wellPaired shaBlkToKey int64ToKey P
    (leveldb.apply (entryPair shaBlkToKey int64ToKey sha h buf) t).
Proof.
  intros [H1 H2] Hh. unfold entryPair, leveldb.apply. simpl.
  assert (forall k, is_Some (t !! k) ->
            is_Some (<[int64ToKey h := Bytes sha ++ buf]>
                       (<[shaBlkToKey sha := putUintLE 8 (uint64 h)]> t) !! k))
    as Hkeep.
  { intros k Hk. rewrite !lookup_insert. repeat case_decide; simpl; eauto. }
  split.
  - intros sha' v Hv.
    rewrite lookup_insert_ne in Hv
      by (intros E; exact (keys_disjoint _ _ (eq_sym E))).
    rewrite lookup_insert in Hv. case_decide as E; simpl in Hv.
    + injection Hv as <-. exists h. split; [reflexivity|]. split; [exact Hh|].
      rewrite lookup_insert_eq. eauto.
    + destruct (H1 sha' v Hv) as (h' & -> & Hh' & Hs). eauto.
  - intros h' v Hv.
    rewrite lookup_insert in Hv. case_decide as E; simpl in Hv.
    + injection Hv as <-. exists sha, buf. split; [reflexivity|].
      rewrite lookup_insert_ne by (intros E'; exact (keys_disjoint _ _ (eq_sym E'))).
      rewrite lookup_insert_eq. eauto.
    + rewrite lookup_insert_ne in Hv by (apply keys_disjoint).
      destruct (H2 h' v Hv) as (sha' & buf' & -> & Hs). eauto.
Qed.

Lemma wellPaired_apply (P : Z -> Prop) (t : gmap (list byte) (list byte))
    (b : leveldb.Batch) :
  wellPaired shaBlkToKey int64ToKey P t ->
  pairsBatch shaBlkToKey int64ToKey P b ->
  wellPaired shaBlkToKey int64ToKey P (leveldb.apply b t).
Proof.
  intros Ht Hb. induction Hb as [|b sha h buf _ IH Hh].
  - exact Ht.
  - rewrite apply_app. apply wellPaired_entryPair; assumption.
Qed.

(** In a paired store the height lookup of a hash reads back a height that
    satisfies [P]. *)
Lemma paired_getBlkLoc (P : Z -> Prop) (db : LevelDb) (sha : ShaHash) (h : Z) :
  (forall h, P h -> int64_range h) ->
  wellPaired shaBlkToKey int64ToKey P (leveldb.table (lDb db)) ->
  getBlkLoc shaBlkToKey db sha = (h, None) ->
  P h /\ is_Some (leveldb.table (lDb db) !! int64ToKey h) /\
  leveldb.broken (lDb db) = None.
Proof.
  intros Hr [H1 _] Hloc.
  apply getBlkLoc_found in Hloc as (data & Hg & Hd).
  apply Get_found in Hg as [Hb Hg].
  destruct (H1 sha data Hg) as (h' & -> & Hh' & Hs).
  rewrite <- (app_nil_r (putUintLE 8 (uint64 h'))) in Hd.
  rewrite binary_Read_putUintLE in Hd by auto.
  injection Hd as <-. auto.
Qed.

(** The height a successful insert assigns on a paired store: the successor
    of a stored height, or [0]. *)
Lemma insertBlockData_height (P Q : Z -> Prop) (db db' : LevelDb)
    (sha prevSha : ShaHash) (buf : list byte) (h : Z) :
  (forall h, P h -> int64_range h) ->
  (forall h, h = -1 \/ P h -> Q (wrap64 (h + 1))) ->
  wellPaired shaBlkToKey int64ToKey P (leveldb.table (lDb db)) ->
  insertBlockData shaBlkToKey int64ToKey db sha prevSha buf = (db', (h, None)) ->
  Q h.
Proof.
  intros Hr Hsucc Ht Hins.
  apply insertBlockData_success in Hins
    as [_ [(o & Hloc & ->)|(e & _ & _ & ->)]].
  - apply Hsucc. right. eapply paired_getBlkLoc; eauto.
  - apply (Hsucc (-1)). left. reflexivity.
Qed.

(** One operation keeps the invariant, for any bound [Q] on heights that
    holds of the successor of every height allowed so far and of [0]. *)
Lemma step_paired (P Q : Z -> Prop) (db : LevelDb) (o : op) :
  (forall h, P h -> int64_range h) ->
  (forall h, P h -> Q h) ->
  (forall h, h = -1 \/ P h -> Q (wrap64 (h + 1))) ->
  paired shaBlkToKey int64ToKey P db ->
  paired shaBlkToKey int64ToKey Q (step shaBlkToKey int64ToKey db o).
Proof.
  intros Hr HPQ Hsucc [Ht Hb].
  assert (paired shaBlkToKey int64ToKey Q db) as Hsame.
  { split; [eapply wellPaired_mono | eapply pairsBatch_mono]; eauto. }
  destruct o as [sha prevSha buf|]; simpl.
  - destruct (insertBlockData_cases db sha prevSha buf)
      as [(e & ->)|(db' & h & Hins)]; [exact Hsame|].
    rewrite Hins. simpl.
    pose proof (insertBlockData_height P Q _ _ _ _ _ _ Hr Hsucc Ht Hins) as Hh.
    apply insertBlockData_success in Hins as [-> _].
    split; simpl; [apply Hsame|].
    constructor; [apply Hsame | exact Hh].
  - pose proof (commit_spec db) as Hc. simpl in Hc.
    destruct Hc as (_ & _ & _ & _ & [(_ & _ & Hd & Hl)|(msg & _ & _ & ->)]);
      [|exact Hsame].
    split.
    + rewrite Hd. simpl. apply wellPaired_apply; apply Hsame.
    + rewrite Hl. constructor.
Qed.

Lemma run_paired (db : LevelDb) (ops : list op) :
  paired shaBlkToKey int64ToKey int64_range db ->
  paired shaBlkToKey int64ToKey int64_range (run shaBlkToKey int64ToKey db ops).
Proof.
  revert db. induction ops as [|o ops IH]; intros db Hdb; [exact Hdb|].
  simpl. apply IH. apply (step_paired int64_range); auto.
  intros h _. apply wrap64_range.
Qed.

Lemma emptyDb_paired (P : Z -> Prop) :
  paired shaBlkToKey int64ToKey P emptyDb.
Proof. split; [apply wellPaired_empty | constructor]. Qed.

(** The engine of a store that works keeps working. *)
Lemma run_not_broken (db : LevelDb) (ops : list op) :
  leveldb.broken (lDb db) = None ->
  leveldb.broken (lDb (run shaBlkToKey int64ToKey db ops)) = None.
Proof.
  revert db. induction ops as [|o ops IH]; intros db Hdb; [exact Hdb|].
  simpl. apply IH. destruct o as [sha prevSha buf|]; simpl.
  - destruct (insertBlockData_cases db sha prevSha buf)
      as [(e & ->)|(db' & h & Hins)]; [exact Hdb|].
    rewrite Hins. apply insertBlockData_success in Hins as [-> _]. exact Hdb.
  - pose proof (commit_spec db) as Hc. simpl in Hc.
    destruct Hc as (_ & _ & _ & _ & [(_ & _ & -> & _)|(msg & _ & _ & ->)]);
      [reflexivity | exact Hdb].
Qed.

(** A paired store answers the lookups in pairs. *)
Lemma paired_pairedLookups (db : LevelDb) :
  wellPaired shaBlkToKey int64ToKey int64_range (leveldb.table (lDb db)) ->
  pairedLookups shaBlkToKey int64ToKey db.
Proof.
  intros Ht. split.
  - intros sha h Hloc.
    destruct (paired_getBlkLoc int64_range db sha h (fun _ H => H) Ht Hloc)
      as (_ & [v Hv] & Hb).
    destruct Ht as [_ H2].
    destruct (H2 h v Hv) as (sha' & buf & -> & _).
    exists sha', buf. apply getBlkByHeight_entry. apply Get_found. auto.
  - intros h sha buf Hget.
    apply getBlkByHeight_found in Hget as (v & Hg & _ & -> & _).
    apply Get_found in Hg as [Hb Hg].
    destruct Ht as [H1 H2].
    destruct (H2 h v Hg) as (sha' & buf' & -> & [w Hw]).
    rewrite take_app_length' by (symmetry; apply length_Bytes).
    rewrite SetBytes_Bytes.
    destruct (H1 sha' w Hw) as (h' & -> & Hh' & _).
    exists h'. apply getBlkLoc_found. exists (putUintLE 8 (uint64 h')).
    split; [apply Get_found; auto|].
    rewrite <- (app_nil_r (putUintLE 8 (uint64 h'))).
    apply binary_Read_putUintLE. exact Hh'.
Qed.

(** ** The tip cache *)

Lemma NewestSha_commit (db : LevelDb) :
  NewestSha (commit db).1 = NewestSha db.
Proof.
  destruct (commit_spec db) as (_ & H1 & H2 & _).
  unfold NewestSha. rewrite H1, H2. reflexivity.
Qed.

Lemma below_succ (n : Z) :
  0 <= n -> n + 1 < 2 ^ 63 ->
  (forall h, 0 <= h < n -> int64_range h) /\
  (forall h, 0 <= h < n -> 0 <= h < n + 1) /\
  (forall h, h = -1 \/ 0 <= h < n -> 0 <= wrap64 (h + 1) < n + 1).
Proof.
  intros Hn Hlt. repeat split; unfold int64_range in *; try lia;
    rewrite wrap64_id by (unfold int64_range; lia); lia.
Qed.

Lemma run_newest (ops : list op) (db : LevelDb) (n : Z)
    (last : option (ShaHash * Z)) :
  0 <= n -> n + Z.of_nat (length ops) < 2 ^ 63 ->
  paired shaBlkToKey int64ToKey (fun h => 0 <= h < n) db ->
  NewestSha db = tipOf last ->
  NewestSha (run shaBlkToKey int64ToKey db ops)
  = tipOf (lastInserted shaBlkToKey int64ToKey db ops last).
Proof.
  revert db n last.
  induction ops as [|o ops IH]; intros db n last Hn Hlen Hdb Htip;
    [exact Htip|].
  rewrite length_cons in Hlen. cbn [run fold_left lastInserted].
  destruct (below_succ n Hn ltac:(lia)) as (Hr & Hmono & Hsucc).
  apply (IH _ (n + 1)); [lia | lia | |].
  - apply (step_paired (fun h => 0 <= h < n)); auto.
  - destruct o as [sha prevSha buf|]; simpl.
    + destruct (insertBlockData_cases db sha prevSha buf)
        as [(e & ->)|(db' & h & Hins)]; [exact Htip|].
      rewrite Hins. simpl.
      pose proof (insertBlockData_height (fun h => 0 <= h < n)
                    (fun h => 0 <= h < n + 1) _ _ _ _ _ _ Hr Hsucc
                    (proj1 Hdb) Hins) as Hh.
      cbv beta in Hh.
      apply insertBlockData_success in Hins as [-> _].
      unfold NewestSha. simpl.
      destruct (Z.eqb_spec h (-1)); [lia | reflexivity].
    + rewrite NewestSha_commit. exact Htip.
Qed.

(** C7.  On the empty store [NewestSha] returns the zero hash and height [-1]
    with no error.  After any history of inserts and commits from the empty
    store (shorter than [2^63], so that heights stay 64-bit) it returns the
    hash and the height of the last insert that succeeded.  The tip cache is
    written by a successful insert only: a commit and a failing insert leave
    it as it was. *)
Theorem newest_is_last_insert (ops : list op) :
  Z.of_nat (length ops) < 2 ^ 63 ->
  NewestSha emptyDb = (zeroSha, -1, None) /\
  NewestSha (run shaBlkToKey int64ToKey emptyDb ops)
  = tipOf (lastInserted shaBlkToKey int64ToKey emptyDb ops None) /\
  (forall db, (lastBlkShaCached (commit db).1, lastBlkSha (commit db).1,
               lastBlkIdx (commit db).1, nextBlock (commit db).1)
              = (lastBlkShaCached db, lastBlkSha db, lastBlkIdx db,
                 nextBlock db)) /\
  (forall db sha prevSha buf e,
     (insertBlockData shaBlkToKey int64ToKey db sha prevSha buf).2.2 = Some e ->
     (insertBlockData shaBlkToKey int64ToKey db sha prevSha buf).1 = db) /\
  (forall db db' sha prevSha buf h,
     insertBlockData shaBlkToKey int64ToKey db sha prevSha buf
     = (db', (h, None)) ->
     lastBlkSha db' = sha /\ lastBlkIdx db' = h).
Proof.
  intros Hlen. split; [reflexivity|]. split; [|split; [|split]].
  - apply (run_newest ops emptyDb 0 None); [lia | lia | | reflexivity].
    apply emptyDb_paired.
  - intros db. destruct (commit_spec db) as (-> & -> & -> & -> & _).
    reflexivity.
  - intros db sha prevSha buf e He.
    apply insertBlockData_failure in He as [-> _]. reflexivity.
  - intros db db' sha prevSha buf h Hins.
    apply insertBlockData_success in Hins as [-> _]. auto.
Qed.

(** C9 (as amended).  In every state reached from the empty store by inserts
    and commits, and for every height, [fetchBlockShaByHeight] either fails
    with the not-found error, the key of the height being absent, or returns
    the hash made of the first thirty-two bytes of the stored payload, which
    has at least thirty-two bytes, so that the extraction is within bounds.
    In any state whatever, an error of the store lookup is returned as it is,
    and a payload of at least thirty-two bytes yields the hash of its
    prefix. *)
Theorem hash_by_height_outcomes (ops : list op) (height : Z) :
  (let db := run shaBlkToKey int64ToKey emptyDb ops in
   (leveldb.table (lDb db) !! int64ToKey height = None /\
    fetchBlockShaByHeight int64ToKey db height = Ret (None, Some ErrNotFound))
   \/
   (exists v sha,
      leveldb.table (lDb db) !! int64ToKey height = Some v /\
      (32 <= length v)%nat /\
      Bytes sha = take 32 v /\
      fetchBlockShaByHeight int64ToKey db height = Ret (Some sha, None))) /\
  (forall db e,
     (leveldb.Get (lDb db) (int64ToKey height)).2 = Some e ->
     FetchBlockShaByHeight int64ToKey db height = Ret (None, Some e)) /\
  (forall db v,
     leveldb.Get (lDb db) (int64ToKey height) = (v, None) ->
     (32 <= length v)%nat ->
     exists sha, Bytes sha = take 32 v /\
       FetchBlockShaByHeight int64ToKey db height = Ret (Some sha, None)).
Proof.
  split; [|split].
  - intros db.
    pose proof (run_not_broken emptyDb ops eq_refl) as Hb. fold db in Hb.
    pose proof (run_paired emptyDb ops (emptyDb_paired _)) as [[_ H2] _].
    fold db in H2.
    destruct (leveldb.table (lDb db) !! int64ToKey height) as [v|] eqn:E.
    + right. destruct (H2 height v E) as (sha & buf & -> & _).
      assert (32 <= length (Bytes sha ++ buf))%nat as Hlen
        by (rewrite length_app, length_Bytes; lia).
      assert (leveldb.Get (lDb db) (int64ToKey height)
              = (Bytes sha ++ buf, None)) as Hg by (apply Get_found; auto).
      destruct (fetchBlockShaByHeight_entry db height _ Hg Hlen) as [Hf Hs].
      eauto 10.
    + left. split; [reflexivity|].
      unfold fetchBlockShaByHeight, leveldb.Get. rewrite Hb, E. reflexivity.
  - intros db e He. unfold FetchBlockShaByHeight, fetchBlockShaByHeight.
    destruct (leveldb.Get (lDb db) (int64ToKey height)) as [v e'].
    simpl in He. subst e'. reflexivity.
  - intros db v Hg Hv.
    destruct (fetchBlockShaByHeight_entry db height v Hg Hv) as [Hf Hs].
    eauto.
Qed.

(** ** Exact pairing *)

Section InjectiveKeys.

(** Each of the two encodings is injective. *)
Hypothesis shaBlkToKey_inj :
  forall sha sha', shaBlkToKey sha = shaBlkToKey sha' -> sha = sha'.
Hypothesis int64ToKey_inj :
  forall h h', int64_range h -> int64_range h' ->
               int64ToKey h = int64ToKey h' -> h = h'.

Lemma exactTable_empty : exactTable shaBlkToKey int64ToKey ∅.
Proof. split; intros ? ? H; rewrite lookup_empty in H; discriminate. Qed.

(** The two puts of an insert whose keys are both new keep the table exact. *)
Lemma exactTable_entryPair (t : gmap (list byte) (list byte))
    (sha : ShaHash) (h : Z) (buf : list byte) :
  exactTable shaBlkToKey int64ToKey t ->
  int64_range h ->
  t !! shaBlkToKey sha = None ->
  t !! int64ToKey h = None ->
  exactTable shaBlkToKey int64ToKey
    (leveldb.apply (entryPair shaBlkToKey int64ToKey sha h buf) t).
Proof.
  intros [H1 H2] Hh Hsha Hblk. unfold entryPair, leveldb.apply. simpl.
  assert (forall s k, shaBlkToKey s <> int64ToKey k) as Hd by exact keys_disjoint.
  assert (forall s k, int64ToKey k <> shaBlkToKey s) as Hd'
    by (intros s k E; exact (Hd s k (eq_sym E))).
  split.
  - intros sha' v Hv.
    rewrite lookup_insert_ne in Hv by apply Hd'.
    rewrite lookup_insert in Hv. case_decide as E; simpl in Hv.
    + injection Hv as <-. apply shaBlkToKey_inj in E as <-.
      exists h, buf. split; [reflexivity|]. split; [exact Hh|].
      apply lookup_insert_eq.
    + destruct (H1 sha' v Hv) as (h' & buf' & -> & Hh' & Hs).
      exists h', buf'. split; [reflexivity|]. split; [exact Hh'|].
      rewrite lookup_insert_ne by (intros E'; rewrite <- E' in Hs; congruence).
      rewrite lookup_insert_ne by apply Hd. exact Hs.
  - intros h0 v Hv.
    rewrite lookup_insert in Hv. case_decide as E; simpl in Hv.
    + injection Hv as <-. exists sha, buf, h.
      split; [reflexivity|]. split; [exact Hh|]. split; [exact E|].
      rewrite lookup_insert_ne by apply Hd'. apply lookup_insert_eq.
    + rewrite lookup_insert_ne in Hv by apply Hd.
      destruct (H2 h0 v Hv) as (sha' & buf' & h' & -> & Hh' & Hk & Hs).
      exists sha', buf', h'. split; [reflexivity|]. split; [exact Hh'|].
      split; [exact Hk|].
      rewrite lookup_insert_ne by apply Hd'.
      rewrite lookup_insert_ne by (intros E'; rewrite <- E' in Hs; congruence).
      exact Hs.
Qed.

(** Along a history that never uses a hash or a height twice, the persisted
    table and the table the next commit would leave are both exact. *)
Lemma run_exactTable (ops : list op) (db : LevelDb) :
  freshHistory shaBlkToKey int64ToKey db ops ->
  exactTable shaBlkToKey int64ToKey (leveldb.table (lDb db)) ->
  exactTable shaBlkToKey int64ToKey (virtualTable db) ->
  exactTable shaBlkToKey int64ToKey
    (leveldb.table (lDb (run shaBlkToKey int64ToKey db ops))).
Proof.
  revert db. induction ops as [|o ops IH]; intros db Hfresh Ht Hv;
    [exact Ht|].
  cbn [run fold_left]. destruct Hfresh as [Ho Hrest].
  apply IH; [exact Hrest | |]; destruct o as [sha prevSha buf|].
  - rewrite (proj1 (step_insert_lbatch db sha prevSha buf)). exact Ht.
  - simpl. pose proof (commit_spec db) as Hc. cbv zeta in Hc.
    destruct Hc as (_ & _ & _ & _ & [(_ & _ & -> & _)|(msg & _ & _ & ->)]);
      [exact Hv | exact Ht].
  - simpl. destruct (insertBlockData_cases db sha prevSha buf)
      as [(e & ->)|(db' & h & Hins)]; [exact Hv|].
    rewrite Hins in Ho |- *. simpl.
    pose proof (insertBlockData_height_range _ _ _ _ _ _ Hins) as Hh.
    apply insertBlockData_success in Hins as [-> _].
    unfold virtualTable. simpl. rewrite apply_app.
    destruct Ho as [Hs Hb]. apply exactTable_entryPair; assumption.
  - simpl. pose proof (commit_spec db) as Hc. cbv zeta in Hc.
    destruct Hc as (_ & _ & _ & _ & [(_ & _ & Hd & Hl)|(msg & _ & _ & ->)]);
      [|exact Hv].
    unfold virtualTable. rewrite Hd, Hl. exact Hv.
Qed.

(** An exact table answers the lookups with entries that name each other. *)
Lemma exactTable_exactlyPaired (db : LevelDb) :
  exactTable shaBlkToKey int64ToKey (leveldb.table (lDb db)) ->
  exactlyPaired shaBlkToKey int64ToKey db.
Proof.
  intros [H1 H2]. split.
  - intros sha h Hloc.
    apply getBlkLoc_found in Hloc as (data & Hg & Hd).
    apply Get_found in Hg as [Hb Hg].
    destruct (H1 sha data Hg) as (h' & buf & -> & Hh' & Hs).
    rewrite <- (app_nil_r (putUintLE 8 (uint64 h'))) in Hd.
    rewrite binary_Read_putUintLE in Hd by exact Hh'.
    injection Hd as <-. exists buf.
    apply getBlkByHeight_entry. apply Get_found. auto.
  - intros h sha buf Hh Hget.
    apply getBlkByHeight_found in Hget as (v & Hg & _ & -> & _).
    apply Get_found in Hg as [Hb Hg].
    destruct (H2 h v Hg) as (sha' & buf' & h' & -> & Hh' & Hk & Hs).
    rewrite take_app_length' by (symmetry; apply length_Bytes).
    rewrite SetBytes_Bytes.
    apply int64ToKey_inj in Hk as ->; [|assumption..].
    apply getBlkLoc_found. exists (putUintLE 8 (uint64 h)).
    split; [apply Get_found; auto|].
    rewrite <- (app_nil_r (putUintLE 8 (uint64 h))).
    apply binary_Read_putUintLE. exact Hh.
Qed.

(** C4 (as amended).  A successful insert leaves the store alone and appends
    exactly two puts to the one pending batch: the hash-index entry of the hash
    with the eight bytes of the height, and the height-index entry of the
    height with the hash followed by the record.  Hence in every state reached
    from the empty store by inserts and commits, a hash whose height is found
    has a height-index entry at that height, and the hash found in a
    height-index entry has a hash-index entry.  The two entries name each
    other as long as no insert of the history was given a hash, or assigned a
    height, that was already persisted or pending. *)
Theorem insert_stages_entry_pair :
  (forall db db' sha prevSha buf h,
     insertBlockData shaBlkToKey int64ToKey db sha prevSha buf
     = (db', (h, None)) ->
     lDb db' = lDb db /\
     lbatch db' = lbatch db ++ [(shaBlkToKey sha, putUintLE 8 (uint64 h));
                                (int64ToKey h, Bytes sha ++ buf)]) /\
  (forall ops,
     pairedLookups shaBlkToKey int64ToKey
       (run shaBlkToKey int64ToKey emptyDb ops)) /\
  (forall ops,
     freshHistory shaBlkToKey int64ToKey emptyDb ops ->
     exactlyPaired shaBlkToKey int64ToKey
       (run shaBlkToKey int64ToKey emptyDb ops)).
Proof.
  split; [|split].
  - intros db db' sha prevSha buf h Hins.
    apply insertBlockData_success in Hins as [-> _]. auto.
  - intros ops. apply paired_pairedLookups.
    apply (run_paired emptyDb ops). apply emptyDb_paired.
  - intros ops Hfresh. apply exactTable_exactlyPaired.
    apply run_exactTable; [exact Hfresh | |]; apply exactTable_empty.
Qed.

End InjectiveKeys.

End DisjointKeys.

(** ** Ranges of heights *)

(** C8.  A range whose end lies below its start (the end not being the
    open-end sentinel) does not return: the capacity handed to [make] is
    negative and the call panics. *)
Theorem range_reversed_bounds_panics (db : LevelDb) (startHeight endHeight : Z) :
  endHeight <> AllShas ->
  endHeight < startHeight ->
  startHeight - endHeight <= 2 ^ 63 ->
  FetchHeightRange int64ToKey AllShas maxCap db startHeight endHeight
  = Panic "makeslice: cap out of range".
Proof.
  intros Hne Hlt Hfit. unfold FetchHeightRange, makeslice_ok.
  destruct (Z.eqb_spec endHeight AllShas) as [E|_]; [contradiction|].
  rewrite wrap64_id by (unfold int64_range; lia).
  destruct (Z.leb_spec 0 (endHeight - startHeight)); [lia | reflexivity].
Qed.

(** The loop stops, without error, at the first height whose lookup fails and
    returns what it has collected. *)
Lemma heightLoop_gap (db : LevelDb) (count : nat) (height : Z)
    (acc : list ShaHash) (e : error) :
  (leveldb.Get (lDb db) (int64ToKey height)).2 = Some e ->
  heightLoop int64ToKey db count height acc = Ret acc.
Proof.
  intros He. destruct count as [|count]; simpl; [reflexivity|].
  destruct (leveldb.Get (lDb db) (int64ToKey height)) as [v e'].
  simpl in He. subst e'. reflexivity.
Qed.

(** At a height whose payload has its thirty-two bytes the loop appends the
    hash and goes on with the next height. *)
Lemma heightLoop_entry (db : LevelDb) (count : nat) (height : Z)
    (acc : list ShaHash) (v : list byte) :
  leveldb.Get (lDb db) (int64ToKey height) = (v, None) ->
  (32 <= length v)%nat ->
  heightLoop int64ToKey db (S count) height acc
  = heightLoop int64ToKey db count (wrap64 (height + 1))
      (acc ++ [SetBytes zeroSha (take 32 v)]).
Proof.
  intros Hg Hv. simpl. rewrite Hg. unfold slice_to.
  destruct (Nat.leb_spec 32 (length v)); [reflexivity | lia].
Qed.

(** The loop adds at most one hash per iteration. *)
Lemma heightLoop_length (db : LevelDb) (count : nat) (height : Z)
    (acc shalist : list ShaHash) :
  heightLoop int64ToKey db count height acc = Ret shalist ->
  (length shalist <= length acc + count)%nat.
Proof.
  revert height acc. induction count as [|count IH]; intros height acc; simpl.
  - intros [= <-]. lia.
  - destruct (leveldb.Get (lDb db) (int64ToKey height)) as [v [e|]].
    + intros [= <-]. lia.
    + destruct (slice_to v 32) as [prefix|why]; [|discriminate].
      intros H. apply IH in H. rewrite length_app in H. simpl in H. lia.
Qed.

(** With the open-end sentinel at most 500 hashes come back. *)
Lemma range_open_end_bound (db : LevelDb) (startHeight : Z)
    (shalist : list ShaHash) (err : option error) :
  int64_range startHeight ->
  FetchHeightRange int64ToKey AllShas maxCap db startHeight AllShas
  = Ret (shalist, err) ->
  (length shalist <= 500)%nat /\ err = None.
Proof.
  intros Hs. unfold FetchHeightRange. rewrite Z.eqb_refl.
  destruct (makeslice_ok maxCap _); [|discriminate].
  destruct (heightLoop _ _ _ _ _) as [l|why] eqn:E; [|discriminate].
  intros [= <- <-]. split; [|reflexivity].
  apply heightLoop_length in E. simpl in E.
  assert (wrap64 (startHeight + 500) <= startHeight + 500).
  { unfold wrap64, int64_range in *.
    pose proof (Z.mod_le (startHeight + 500 + 2 ^ 63) (2 ^ 64)). lia. }
  lia.
Qed.

(** An empty range returns the empty list. *)
Lemma range_empty (db : LevelDb) (height : Z) :
  height <> AllShas -> 0 <= maxCap ->
  FetchHeightRange int64ToKey AllShas maxCap db height height
  = Ret ([], None).
Proof.
  intros Hne Hcap. unfold FetchHeightRange, makeslice_ok.
  destruct (Z.eqb_spec height AllShas) as [E|_]; [contradiction|].
  rewrite Z.sub_diag. change (wrap64 0) with 0. simpl.
  destruct (Z.leb_spec 0 maxCap); [reflexivity | lia].
Qed.

End Properties.

(** * The sample instance: witnesses and counterexamples *)

(** The sample codec separates the namespaces by length. *)
Lemma sample_keys_disjoint (sha : ShaHash) (h : Z) :
  Sample.shaBlkToKey sha <> Sample.int64ToKey h.
Proof.
  unfold Sample.shaBlkToKey, Sample.int64ToKey. intros E.
  apply (f_equal length) in E.
  rewrite length_Bytes, length_putUintLE in E. discriminate.
Qed.

Lemma sample_shaBlkToKey_inj (sha sha' : ShaHash) :
  Sample.shaBlkToKey sha = Sample.shaBlkToKey sha' -> sha = sha'.
Proof. apply ShaHash_eq. Qed.

Lemma sample_int64ToKey_inj (h h' : Z) :
  int64_range h -> int64_range h' ->
  Sample.int64ToKey h = Sample.int64ToKey h' -> h = h'.
Proof.
  unfold Sample.int64ToKey. intros Hh Hh' E.
  assert (Some h = Some h') as [= ->]; [|reflexivity].
  rewrite <- (binary_Read_putUintLE h []) by exact Hh.
  rewrite <- (binary_Read_putUintLE h' []) by exact Hh'.
  rewrite E. reflexivity.
Qed.

Lemma sample_shaC_not_shaB : Sample.shaC <> Sample.shaB.
Proof. intros E. apply (f_equal sha_bytes) in E. discriminate. Qed.

(** C1, counterexample to the claim as stated: on the store that holds the
    genesis block, an insert naming an unknown predecessor fails with the
    lookup's own not-found error, not with an error of the broken-chain
    kind. *)
Lemma insert_error_is_not_broken_chain :
  (leveldb.Get (lDb Sample.nonEmptyDb) (Sample.shaBlkToKey Sample.shaX)).2
  = Some ErrNotFound /\
  nextBlock Sample.nonEmptyDb = 1 /\
  (insertBlockData Sample.shaBlkToKey Sample.int64ToKey Sample.nonEmptyDb
     Sample.shaB Sample.shaX Sample.recB).2 = (0, Some ErrNotFound) /\
  kindOf ErrNotFound <> BrokenChain.
Proof. repeat split; try (vm_compute; reflexivity). discriminate. Qed.

(** C1, an instance: the same insert on the empty and on the non-empty
    store. *)
Lemma insert_unknown_predecessor_witness :
  (insertBlockData Sample.shaBlkToKey Sample.int64ToKey emptyDb
     Sample.shaA Sample.shaX Sample.recA).2 = (0, None) /\
  insertBlockData Sample.shaBlkToKey Sample.int64ToKey Sample.nonEmptyDb
    Sample.shaB Sample.shaX Sample.recB
  = (Sample.nonEmptyDb, (0, Some ErrNotFound)).
Proof.
  split.
  - apply (insert_unknown_predecessor Sample.shaBlkToKey Sample.int64ToKey
             emptyDb Sample.shaA Sample.shaX Sample.recA);
      vm_compute; reflexivity.
  - apply (insert_unknown_predecessor Sample.shaBlkToKey Sample.int64ToKey
             Sample.nonEmptyDb Sample.shaB Sample.shaX Sample.recB).
    + vm_compute; reflexivity.
    + vm_compute. discriminate.
Defined.

(** C2, an instance: the rejected insert on the store holding the genesis
    block. *)
Lemma rejected_insert_changes_nothing_witness :
  (insertBlockData Sample.shaBlkToKey Sample.int64ToKey Sample.nonEmptyDb
     Sample.shaB Sample.shaX Sample.recB).2.2 = Some ErrNotFound /\
  (insertBlockData Sample.shaBlkToKey Sample.int64ToKey Sample.nonEmptyDb
     Sample.shaB Sample.shaX Sample.recB).1 = Sample.nonEmptyDb.
Proof.
  assert ((leveldb.Get (lDb Sample.nonEmptyDb)
             (Sample.shaBlkToKey Sample.shaX)).2 = Some ErrNotFound) as Hget
    by (vm_compute; reflexivity).
  assert (nextBlock Sample.nonEmptyDb <> 0) as Hne
    by (vm_compute; discriminate).
  pose proof (rejected_insert_changes_nothing Sample.shaBlkToKey
                Sample.int64ToKey Sample.nonEmptyDb Sample.shaB Sample.shaX
                Sample.recB Hget Hne) as H.
  cbv zeta in H. split; apply H.
Defined.

(** C3, counterexample to the claim as stated: right after the genesis insert
    succeeded with height [0], and before any commit, the inserted hash is
    not found. *)
Lemma fetch_before_commit_not_found :
  (insertBlockData Sample.shaBlkToKey Sample.int64ToKey emptyDb
     Sample.shaA Sample.shaX Sample.recA).2 = (0, None) /\
  fetchSha Sample.shaBlkToKey Sample.int64ToKey
    (insertBlockData Sample.shaBlkToKey Sample.int64ToKey emptyDb
       Sample.shaA Sample.shaX Sample.recA).1 Sample.shaA
  = Ret ([], 0, Some ErrNotFound).
Proof. split; vm_compute; reflexivity. Qed.

(** C3, an instance: the genesis insert, the commit, the fetch. *)
Lemma insert_commit_fetch_roundtrip_witness :
  fetchSha Sample.shaBlkToKey Sample.int64ToKey Sample.nonEmptyDb Sample.shaA
  = Ret (Sample.recA, 0, None).
Proof.
  apply (insert_commit_fetch_roundtrip Sample.shaBlkToKey Sample.int64ToKey
           sample_keys_disjoint emptyDb
           (insertBlockData Sample.shaBlkToKey Sample.int64ToKey emptyDb
              Sample.shaA Sample.shaX Sample.recA).1
           Sample.nonEmptyDb Sample.shaA Sample.shaX Sample.recA 0);
    vm_compute; reflexivity.
Defined.

(** C4, counterexample to the claim as stated: after two blocks were inserted
    on the same predecessor, the hash-index entry of the first maps to height
    [1], where the height-index entry now holds the second. *)
Lemma fork_breaks_exact_pairing :
  let db := run Sample.shaBlkToKey Sample.int64ToKey emptyDb Sample.forkOps in
  getBlkLoc Sample.shaBlkToKey db Sample.shaB = (1, None) /\
  getBlkByHeight Sample.int64ToKey db 1
  = Ret (Some Sample.shaC, Sample.recC, None) /\
  ~ exactlyPaired Sample.shaBlkToKey Sample.int64ToKey db.
Proof.
  intros db.
  assert (getBlkLoc Sample.shaBlkToKey db Sample.shaB = (1, None)) as H1
    by (vm_compute; reflexivity).
  assert (getBlkByHeight Sample.int64ToKey db 1
          = Ret (Some Sample.shaC, Sample.recC, None)) as H2
    by (vm_compute; reflexivity).
  split; [exact H1 | split; [exact H2 |]].
  intros [Hex _]. destruct (Hex _ _ H1) as [buf Hbuf].
  rewrite H2 in Hbuf.
  assert (Some Sample.shaC = Some Sample.shaB) as Hs by congruence.
  apply sample_shaC_not_shaB. congruence.
Qed.

(** C4, an instance: the lookups of the store after the fork are paired, and
    those of the store after the chain of three blocks name each other. *)
Lemma insert_stages_entry_pair_witness :
  pairedLookups Sample.shaBlkToKey Sample.int64ToKey
    (run Sample.shaBlkToKey Sample.int64ToKey emptyDb Sample.forkOps) /\
  exactlyPaired Sample.shaBlkToKey Sample.int64ToKey
    (run Sample.shaBlkToKey Sample.int64ToKey emptyDb Sample.chainOps).
Proof.
  pose proof (insert_stages_entry_pair Sample.shaBlkToKey Sample.int64ToKey
                sample_keys_disjoint sample_shaBlkToKey_inj
                sample_int64ToKey_inj) as (_ & Hweak & Hexact).
  split; [apply Hweak | apply Hexact].
  vm_compute. repeat split; reflexivity.
Defined.

(** C5, counterexample to the claim as stated: the height-index entry of
    height [1], created by the second insert, is given another payload by the
    third. *)
Lemma fork_overwrites_height_entry :
  let db4 := run Sample.shaBlkToKey Sample.int64ToKey emptyDb
               (take 4 Sample.forkOps) in
  let db6 := run Sample.shaBlkToKey Sample.int64ToKey db4
               (drop 4 Sample.forkOps) in
  leveldb.table (lDb db4) !! Sample.int64ToKey 1
  = Some (Bytes Sample.shaB ++ Sample.recB) /\
  leveldb.table (lDb db6) !! Sample.int64ToKey 1
  = Some (Bytes Sample.shaC ++ Sample.recC) /\
  Bytes Sample.shaB ++ Sample.recB <> Bytes Sample.shaC ++ Sample.recC.
Proof. repeat split; try (vm_compute; reflexivity). discriminate. Qed.

(** C7, an instance: after the fork history the tip is the last block
    inserted. *)
Lemma newest_is_last_insert_witness :
  NewestSha (run Sample.shaBlkToKey Sample.int64ToKey emptyDb Sample.forkOps)
  = (Sample.shaC, 1, None).
Proof.
  assert (Z.of_nat (length Sample.forkOps) < 2 ^ 63) as Hlen
    by (vm_compute; reflexivity).
  pose proof (newest_is_last_insert Sample.shaBlkToKey Sample.int64ToKey
                sample_keys_disjoint Sample.forkOps Hlen) as (_ & H & _).
  rewrite H. vm_compute. reflexivity.
Defined.

(** The open-ended range from height [1] over the chain of three blocks: the
    two hashes at heights [1] and [2], the loop stopping at the gap. *)
Lemma range_open_end_example :
  FetchHeightRange Sample.int64ToKey Sample.AllShas Sample.maxCap
    (run Sample.shaBlkToKey Sample.int64ToKey emptyDb Sample.chainOps)
    1 Sample.AllShas
  = Ret ([Sample.shaB; Sample.shaC], None).
Proof. vm_compute. reflexivity. Qed.

(** C8, an instance: the range from [1] to [0]. *)
Lemma range_reversed_bounds_panics_witness :
  FetchHeightRange Sample.int64ToKey Sample.AllShas Sample.maxCap emptyDb 1 0
  = Panic "makeslice: cap out of range".
Proof.
  apply range_reversed_bounds_panics; unfold Sample.AllShas; lia.
Defined.

(** C9, counterexample to the claim as stated: a payload of three bytes under
    the key of height [0] makes the extraction of the hash panic, and a
    failure of the store is returned as it is, an error that is not of the
    not-found kind. *)
Lemma short_payload_panics :
  leveldb.Get (lDb Sample.damagedDb) (Sample.int64ToKey 0)
  = (Sample.recA, None) /\
  fetchBlockShaByHeight Sample.int64ToKey Sample.damagedDb 0
  = Panic "slice bounds out of range" /\
  fetchBlockShaByHeight Sample.int64ToKey Sample.brokenDb 0
  = Ret (None, Some (ErrStore "closed")) /\
  kindOf (ErrStore "closed") <> NotFound.
Proof. repeat split; try (vm_compute; reflexivity). discriminate. Qed.

(** C9, an instance: the hash at height [1] after the fork history. *)
Lemma hash_by_height_outcomes_witness :
  FetchBlockShaByHeight Sample.int64ToKey
    (run Sample.shaBlkToKey Sample.int64ToKey emptyDb Sample.forkOps) 1
  = Ret (Some Sample.shaC, None).
Proof.
  pose proof (hash_by_height_outcomes Sample.shaBlkToKey Sample.int64ToKey
                sample_keys_disjoint Sample.forkOps 1) as (_ & _ & H).
  destruct (H (run Sample.shaBlkToKey Sample.int64ToKey emptyDb Sample.forkOps)
              (Bytes Sample.shaC ++ Sample.recC))
    as (sha & Hs & ->).
  - vm_compute. reflexivity.
  - vm_compute. lia.
  - do 2 f_equal. f_equal. apply ShaHash_eq.
    unfold Bytes in Hs. rewrite Hs. reflexivity.
Defined.

(** * Further properties of the block functions *)

(** X1.  The eight bytes [setBlk] writes for a height decode, in [getBlkLoc],
    to that height, for every 64-bit height and whatever bytes follow
    them. *)
Theorem height_encoding_roundtrip (h : Z) (rest : list byte) :
  int64_range h ->
  exists lw, binary_Write h = Some lw /\ length lw = 8%nat /\
             binary_Read (lw ++ rest) = Some h.
Proof.
  intros Hh. exists (putUintLE 8 (uint64 h)).
  split; [reflexivity|]. split; [apply length_putUintLE|].
  apply binary_Read_putUintLE. exact Hh.
Qed.

Section Coverage.

Variable shaBlkToKey : ShaHash -> list byte.
Variable int64ToKey : Z -> list byte.
Variable AllShas : Z.
Variable maxCap : Z.

Lemma getBlkLoc_range (db : LevelDb) (sha : ShaHash) (h : Z) :
  getBlkLoc shaBlkToKey db sha = (h, None) -> int64_range h.
Proof.
  intros Hloc. apply getBlkLoc_found in Hloc as (data & _ & Hd).
  exact (binary_Read_range _ _ Hd).
Qed.

Lemma getBlkLoc_Get_error (db : LevelDb) (sha : ShaHash) (e : error) :
  (leveldb.Get (lDb db) (shaBlkToKey sha)).2 = Some e ->
  getBlkLoc shaBlkToKey db sha = (0, Some e).
Proof.
  unfold getBlkLoc.
  destruct (leveldb.Get (lDb db) (shaBlkToKey sha)) as [v e'].
  simpl. intros ->. reflexivity.
Qed.

Lemma insertBlockData_rejected (db : LevelDb) (sha prevSha : ShaHash)
    (buf : list byte) (h : Z) (e : error) :
  getBlkLoc shaBlkToKey db prevSha = (h, Some e) ->
  nextBlock db <> 0 ->
  insertBlockData shaBlkToKey int64ToKey db sha prevSha buf = (db, (0, Some e)).
Proof.
  intros Hloc Hne. unfold insertBlockData. rewrite Hloc.
  destruct (Z.eqb_spec (nextBlock db) 0); [contradiction | reflexivity].
Qed.

(** X2.  [getBlkLoc] succeeds exactly when the store returns a payload of at
    least eight bytes for the key of the hash; the height is read from the
    first eight bytes alone, so a longer payload is not reported as corrupt;
    it is a 64-bit integer; and every failure returns height [0]. *)
Theorem height_lookup_outcomes (db : LevelDb) (sha : ShaHash) :
  (forall h, getBlkLoc shaBlkToKey db sha = (h, None) <->
     exists data, leveldb.Get (lDb db) (shaBlkToKey sha) = (data, None) /\
                  (8 <= length data)%nat /\
                  h = wrap64 (uintLE (take 8 data))) /\
  (forall h, getBlkLoc shaBlkToKey db sha = (h, None) -> int64_range h) /\
  (forall h e, getBlkLoc shaBlkToKey db sha = (h, Some e) -> h = 0).
Proof.
  split; [|split].
  - intros h. rewrite getBlkLoc_found. unfold binary_Read.
    split; intros (data & Hg & Hd); exists data; (split; [exact Hg|]).
    + destruct (Nat.ltb_spec (length data) 8); [discriminate|].
      injection Hd as <-. split; [lia | reflexivity].
    + destruct Hd as [Hlen ->].
      destruct (Nat.ltb_spec (length data) 8); [lia | reflexivity].
  - intros h. apply getBlkLoc_range.
  - intros h e Hloc. apply getBlkLoc_error in Hloc as [-> _]. reflexivity.
Qed.

(** X3.  When the height lookup of the declared predecessor succeeds with
    height [o], the insert succeeds whatever the tip cache and the next
    height hold, and assigns the 64-bit successor of [o]: [o + 1], which wraps
    to the least 64-bit integer when [o] is the greatest. *)
Theorem insert_on_known_predecessor (db : LevelDb) (sha prevSha : ShaHash)
    (buf : list byte) (o : Z) :
  getBlkLoc shaBlkToKey db prevSha = (o, None) ->
  (insertBlockData shaBlkToKey int64ToKey db sha prevSha buf).2
  = (wrap64 (o + 1), None) /\
  (o < 2 ^ 63 - 1 -> wrap64 (o + 1) = o + 1) /\
  (o = 2 ^ 63 - 1 -> wrap64 (o + 1) = - 2 ^ 63).
Proof.
  intros Hloc.
  pose proof (getBlkLoc_range db prevSha o Hloc) as Ho.
  split; [|split].
  - unfold insertBlockData, setBlk, binary_Write. rewrite Hloc. reflexivity.
  - intros Hlt. apply wrap64_id. unfold int64_range in *. lia.
  - intros ->. reflexivity.
Qed.

(** X4.  When the height lookup of the declared predecessor fails, with any
    error (not found, corrupt payload or a failure of the store), the insert
    takes the block for the genesis block and succeeds with height [0] if the
    next height is [0]; otherwise it returns that error unchanged and the
    handle it was given. *)
Theorem insert_on_failed_predecessor_lookup (db : LevelDb)
    (sha prevSha : ShaHash) (buf : list byte) (e : error) :
  (getBlkLoc shaBlkToKey db prevSha).2 = Some e ->
  (nextBlock db = 0 ->
   (insertBlockData shaBlkToKey int64ToKey db sha prevSha buf).2 = (0, None)) /\
  (nextBlock db <> 0 ->
   insertBlockData shaBlkToKey int64ToKey db sha prevSha buf
   = (db, (0, Some e))).
Proof.
  intros He. unfold insertBlockData, setBlk, binary_Write.
  destruct (getBlkLoc shaBlkToKey db prevSha) as [o e']. simpl in He. subst e'.
  destruct (Z.eqb_spec (nextBlock db) 0) as [E|E]; simpl; split; intros H;
    try contradiction; reflexivity.
Qed.

(** X5.  An insert fails in one way only: the error it returns is the error
    of the predecessor lookup, the next height is not [0], and the handle is
    returned as it was.  In particular it never fails with the write error of
    [setBlk] nor with [PrevShaMissing]. *)
Theorem insert_fails_only_on_lookup (db : LevelDb) (sha prevSha : ShaHash)
    (buf : list byte) (e : error) :
  (insertBlockData shaBlkToKey int64ToKey db sha prevSha buf).2.2 = Some e ->
  (getBlkLoc shaBlkToKey db prevSha).2 = Some e /\
  nextBlock db <> 0 /\
  (insertBlockData shaBlkToKey int64ToKey db sha prevSha buf).1 = db /\
  (insertBlockData shaBlkToKey int64ToKey db sha prevSha buf).2.1 = 0 /\
  e <> ErrWriteFail /\ e <> PrevShaMissing.
Proof.
  intros He. apply insertBlockData_failure in He as (-> & Hloc & Hne).
  repeat split; try assumption.
  - destruct (getBlkLoc shaBlkToKey db prevSha) as [o e'] eqn:E.
    simpl in Hloc. subst e'.
    apply getBlkLoc_error in E as [_ [[v Hv]|[-> _]]]; [|discriminate].
    apply Get_error in Hv as [_ [[-> _]|(msg & -> & _)]]; discriminate.
  - destruct (getBlkLoc shaBlkToKey db prevSha) as [o e'] eqn:E.
    simpl in Hloc. subst e'.
    apply getBlkLoc_error in E as [_ [[v Hv]|[-> _]]]; [|discriminate].
    apply Get_error in Hv as [_ [[-> _]|(msg & -> & _)]]; discriminate.
Qed.

(** X6.  Genesis only once: after an insert that succeeded with a height other
    than [-1], an insert whose declared predecessor has no hash-index entry is
    rejected with the not-found error and changes nothing; the same holds
    after the pending batch is committed, if the predecessor is still
    absent. *)
Theorem genesis_only_once (db db' : LevelDb) (sha prevSha : ShaHash)
    (buf : list byte) (h : Z) (sha2 prevSha2 : ShaHash) (buf2 : list byte) :
  insertBlockData shaBlkToKey int64ToKey db sha prevSha buf = (db', (h, None)) ->
  h <> -1 ->
  (leveldb.Get (lDb db) (shaBlkToKey prevSha2)).2 = Some ErrNotFound ->
  insertBlockData shaBlkToKey int64ToKey db' sha2 prevSha2 buf2
  = (db', (0, Some ErrNotFound)) /\
  ((leveldb.Get (lDb (commit db').1) (shaBlkToKey prevSha2)).2
   = Some ErrNotFound ->
   insertBlockData shaBlkToKey int64ToKey (commit db').1 sha2 prevSha2 buf2
   = ((commit db').1, (0, Some ErrNotFound))).
Proof.
  intros Hins Hh Hget.
  pose proof (insertBlockData_height_range _ _ _ _ _ _ _ _ Hins) as Hr.
  apply insertBlockData_success in Hins as [-> _].
  assert (wrap64 (h + 1) <> 0) as Hnext.
  { unfold int64_range in Hr.
    destruct (Z.eq_dec h (2 ^ 63 - 1)) as [->|Hmax]; [discriminate|].
    rewrite wrap64_id by (unfold int64_range; lia). lia. }
  assert (forall d : LevelDb,
            nextBlock d = wrap64 (h + 1) ->
            (leveldb.Get (lDb d) (shaBlkToKey prevSha2)).2 = Some ErrNotFound ->
            insertBlockData shaBlkToKey int64ToKey d sha2 prevSha2 buf2
            = (d, (0, Some ErrNotFound))) as Hrej.
  { intros d Hd Hg.
    apply (insertBlockData_rejected d sha2 prevSha2 buf2 0).
    - apply getBlkLoc_Get_error. exact Hg.
    - rewrite Hd. exact Hnext. }
  split.
  - apply Hrej; [reflexivity | exact Hget].
  - intros Hg. apply Hrej; [|exact Hg].
    destruct (commit_spec
      (mkLevelDb (lDb db)
         (lbatch db ++ entryPair shaBlkToKey int64ToKey sha h buf)
         true sha h (wrap64 (h + 1)))) as (_ & _ & _ & -> & _).
    reflexivity.
Qed.

(** X7.  After a successful insert that returned height [h], [NewestSha]
    returns the inserted hash and [h], with no error, unless [h] is [-1]:
    a block at height [-1] (its predecessor stored at [-2]) is reported as
    the empty chain, zero hash and [-1]. *)
Theorem newest_after_insert (db db' : LevelDb) (sha prevSha : ShaHash)
    (buf : list byte) (h : Z) :
  insertBlockData shaBlkToKey int64ToKey db sha prevSha buf = (db', (h, None)) ->
  (h <> -1 -> NewestSha db' = (sha, h, None)) /\
  (h = -1 -> NewestSha db' = (zeroSha, -1, None) /\
             getBlkLoc shaBlkToKey db prevSha = (-2, None)) /\
  nextBlock db' = wrap64 (h + 1) /\ lastBlkShaCached db' = true.
Proof.
  intros Hins. apply insertBlockData_success in Hins as [-> Hh].
  unfold NewestSha. simpl.
  split; [|split; [|split; reflexivity]].
  - intros Hne. destruct (Z.eqb_spec h (-1)); [contradiction | reflexivity].
  - intros ->. split; [reflexivity|].
    destruct Hh as [(o & Hloc & Ho)|(e & _ & _ & [=])].
    pose proof (getBlkLoc_range db prevSha o Hloc) as Hr.
    assert (o = -2) as ->; [|exact Hloc].
    unfold int64_range in Hr.
    destruct (Z.eq_dec o (2 ^ 63 - 1)) as [->|Hmax]; [discriminate|].
    rewrite wrap64_id in Ho by (unfold int64_range; lia). lia.
Qed.

(** ** Lookups after a commit *)

(** What the store holds for a block once its insert is committed: the
    height-index entry, which is the last put of the batch, and, when its key
    is another one, the hash-index entry. *)
Lemma committed_insert_entries (db db' db'' : LevelDb) (sha prevSha : ShaHash)
    (buf : list byte) (h : Z) :
  insertBlockData shaBlkToKey int64ToKey db sha prevSha buf = (db', (h, None)) ->
  commit db' = (db'', None) ->
  int64_range h /\
  leveldb.Get (lDb db'') (int64ToKey h) = (Bytes sha ++ buf, None) /\
  (shaBlkToKey sha <> int64ToKey h ->
   leveldb.Get (lDb db'') (shaBlkToKey sha) = (putUintLE 8 (uint64 h), None)).
Proof.
  intros Hins Hcommit.
  pose proof (insertBlockData_height_range _ _ _ _ _ _ _ _ Hins) as Hh.
  apply insertBlockData_success in Hins as [-> _].
  pose proof (commit_spec
    (mkLevelDb (lDb db)
       (lbatch db ++ entryPair shaBlkToKey int64ToKey sha h buf)
       true sha h (wrap64 (h + 1)))) as Hc.
  rewrite Hcommit in Hc. simpl in Hc.
  destruct Hc as (_ & _ & _ & _ & [(Hb & _ & Hd & _)|(msg & _ & [=] & _)]).
  rewrite apply_app in Hd. unfold entryPair, leveldb.apply in Hd. simpl in Hd.
  split; [exact Hh|]. split.
  - apply Get_found. rewrite Hd. simpl. split; [reflexivity|].
    apply lookup_insert_eq.
  - intros Hne. apply Get_found. rewrite Hd. simpl. split; [reflexivity|].
    rewrite lookup_insert_ne by (intros E; exact (Hne (eq_sym E))).
    apply lookup_insert_eq.
Qed.

(** X8.  Right after the commit of a successful insert that returned height
    [h], the two indexes answer for the block: the hash at height [h] is the
    inserted hash and the record at [h] the inserted record, whatever the key
    codec; and, the key of the hash not being the key of the height, the
    height of the hash is [h] and the hash exists. *)
Theorem committed_block_is_indexed (db db' db'' : LevelDb)
    (sha prevSha : ShaHash) (buf : list byte) (h : Z) :
  insertBlockData shaBlkToKey int64ToKey db sha prevSha buf = (db', (h, None)) ->
  commit db' = (db'', None) ->
  fetchBlockShaByHeight int64ToKey db'' h = Ret (Some sha, None) /\
  getBlkByHeight int64ToKey db'' h = Ret (Some sha, buf, None) /\
  (shaBlkToKey sha <> int64ToKey h ->
   FetchBlockHeightBySha shaBlkToKey db'' sha = (h, None) /\
   ExistsSha shaBlkToKey db'' sha = true).
Proof.
  intros Hins Hcommit.
  destruct (committed_insert_entries _ _ _ _ _ _ _ Hins Hcommit)
    as (Hh & Hblk & Hsha).
  split; [|split].
  - destruct (fetchBlockShaByHeight_entry int64ToKey db'' h _ Hblk) as [-> _].
    + rewrite length_app, length_Bytes. lia.
    + rewrite take_app_length' by (symmetry; apply length_Bytes).
      rewrite SetBytes_Bytes. reflexivity.
  - apply getBlkByHeight_entry. exact Hblk.
  - intros Hne. specialize (Hsha Hne).
    assert (getBlkLoc shaBlkToKey db'' sha = (h, None)) as Hloc.
    { apply getBlkLoc_found. eexists. split; [exact Hsha|].
      rewrite <- (app_nil_r (putUintLE 8 (uint64 h))).
      apply binary_Read_putUintLE. exact Hh. }
    split; [exact Hloc|].
    unfold ExistsSha, blkExistsSha. rewrite Hloc. reflexivity.
Qed.

(** ** Bounds of the payload under a height key *)


(** ** The record of a hash *)

Lemma getBlkByHeight_shape (db : LevelDb) (h : Z) (o : option ShaHash)
    (buf : list byte) (e : option error) :
  getBlkByHeight int64ToKey db h = Ret (o, buf, e) ->
  match e with
  | None => exists sha', o = Some sha'
  | Some e' => (leveldb.Get (lDb db) (int64ToKey h)).2 = Some e'
  end.
Proof.
  unfold getBlkByHeight.
  destruct (leveldb.Get (lDb db) (int64ToKey h)) as [v [e'|]].
  - intros [= <- <- <-]. reflexivity.
  - destruct (slice_to v 32); [|discriminate].
    destruct (slice_from v 32); [|discriminate].
    intros [= <- <- <-]. eauto.
Qed.

(** X10.  [fetchSha] chains the two lookups and compares nothing: it succeeds
    exactly when the height of the hash is found and the height-index entry
    at that height is read, and returns the record stored there, whichever
    hash that entry holds.  A failure of either lookup is returned with an
    empty record and height [0]; it panics exactly when the second lookup
    does. *)
Theorem block_by_hash_outcomes (db : LevelDb) (sha : ShaHash) :
  (forall buf h,
     fetchSha shaBlkToKey int64ToKey db sha = Ret (buf, h, None) <->
     getBlkLoc shaBlkToKey db sha = (h, None) /\
     exists sha', getBlkByHeight int64ToKey db h = Ret (Some sha', buf, None)) /\
  (forall buf h e,
     fetchSha shaBlkToKey int64ToKey db sha = Ret (buf, h, Some e) ->
     buf = [] /\ h = 0 /\
     ((getBlkLoc shaBlkToKey db sha).2 = Some e \/
      exists h', getBlkLoc shaBlkToKey db sha = (h', None) /\
                 (leveldb.Get (lDb db) (int64ToKey h')).2 = Some e)) /\
  (forall why,
     fetchSha shaBlkToKey int64ToKey db sha = Panic why <->
     exists h', getBlkLoc shaBlkToKey db sha = (h', None) /\
                getBlkByHeight int64ToKey db h' = Panic why).
Proof.
  unfold fetchSha, getBlk.
  destruct (getBlkLoc shaBlkToKey db sha) as [h0 [e0|]] eqn:Hloc.
  - split; [|split].
    + intros buf h. split; [discriminate | intros [[=] _]].
    + intros buf h e [= <- <- <-]. auto.
    + intros why. split; [discriminate | intros (h' & [=] & _)].
  - destruct (getBlkByHeight int64ToKey db h0) as [[[o buf0] [e|]]|why0] eqn:Hh.
    + pose proof (getBlkByHeight_shape _ _ _ _ _ Hh) as He. simpl in He.
      split; [|split].
      * intros buf h. split; [discriminate | intros [[= <-] [s Hs]]].
        congruence.
      * intros buf h e' [= <- <- <-]. split; [reflexivity|].
        split; [reflexivity|]. right. eauto.
      * intros why. split; [discriminate | intros (h' & [= <-] & Hp)].
        congruence.
    + destruct (getBlkByHeight_shape _ _ _ _ _ Hh) as [s ->].
      split; [|split].
      * intros buf h. split.
        -- intros [= <- <-]. eauto.
        -- intros [[= <-] [s' Hs]]. congruence.
      * intros buf h e [=].
      * intros why. split; [discriminate | intros (h' & [= <-] & Hp)].
        congruence.
    + split; [|split].
      * intros buf h. split; [discriminate | intros [[= <-] [s Hs]]].
        congruence.
      * intros buf h e [=].
      * intros why. split.
        -- intros [= <-]. eauto.
        -- intros (h' & [= <-] & Hp). congruence.
Qed.

(** ** Parsed blocks and headers *)

Section Parsed.

Variable Block : Type.
Variable BlockHeader : Type.
Variable ParseError : Type.
Variable NewBlockFromBytes : list byte -> Block + ParseError.
Variable SetHeight : Block -> Z -> Block.
Variable Deserialize : list byte -> BlockHeader + ParseError.

(** X11.  Right after the commit of a successful insert that returned height
    [h] (the key of the hash not being the key of the height), the block
    fetched by the hash is the parse of exactly the inserted record, with its
    height set to [h], and the header fetched is the parse of that same
    record; when the parser rejects the record, its error is returned and no
    value. *)
Theorem committed_block_is_parsed (db db' db'' : LevelDb)
    (sha prevSha : ShaHash) (buf : list byte) (h : Z) :
  insertBlockData shaBlkToKey int64ToKey db sha prevSha buf = (db', (h, None)) ->
  commit db' = (db'', None) ->
  shaBlkToKey sha <> int64ToKey h ->
  FetchBlockBySha shaBlkToKey int64ToKey Block ParseError NewBlockFromBytes
    SetHeight db'' sha
  = match NewBlockFromBytes buf with
    | inl blk => Ret (Some (SetHeight blk h), None)
    | inr err => Ret (None, Some (inr err))
    end /\
  FetchBlockHeaderBySha shaBlkToKey int64ToKey BlockHeader ParseError
    Deserialize db'' sha
  = match Deserialize buf with
    | inl blockHeader => Ret (Some blockHeader, None)
    | inr err => Ret (None, Some (inr err))
    end.
Proof.
  intros Hins Hcommit Hne.
  destruct (committed_insert_entries _ _ _ _ _ _ _ Hins Hcommit)
    as (Hh & Hblk & Hsha).
  specialize (Hsha Hne).
  assert (fetchSha shaBlkToKey int64ToKey db'' sha = Ret (buf, h, None))
    as Hfetch.
  { unfold fetchSha, getBlk, getBlkLoc. rewrite Hsha.
    rewrite <- (app_nil_r (putUintLE 8 (uint64 h))).
    rewrite binary_Read_putUintLE by exact Hh.
    rewrite (getBlkByHeight_entry _ _ _ _ _ Hblk). reflexivity. }
  unfold FetchBlockBySha, fetchBlockBySha, FetchBlockHeaderBySha.
  rewrite Hfetch. split; reflexivity.
Qed.

(** X12.  A failure of the lookup by hash is returned by both fetches as it
    is, with no value, and the parser's verdict plays no part: a record that
    is never found is never parsed.  Conversely a block or a header is only
    ever returned for a hash whose record [fetchSha] returns. *)
Theorem parsed_fetch_needs_record (db : LevelDb) (sha : ShaHash) :
  (forall e,
     (getBlkLoc shaBlkToKey db sha).2 = Some e ->
     FetchBlockBySha shaBlkToKey int64ToKey Block ParseError NewBlockFromBytes
       SetHeight db sha = Ret (None, Some (inl e)) /\
     FetchBlockHeaderBySha shaBlkToKey int64ToKey BlockHeader ParseError
       Deserialize db sha = Ret (None, Some (inl e))) /\
  (forall blk,
     FetchBlockBySha shaBlkToKey int64ToKey Block ParseError NewBlockFromBytes
       SetHeight db sha = Ret (Some blk, None) ->
     exists buf h parsed,
       fetchSha shaBlkToKey int64ToKey db sha = Ret (buf, h, None) /\
       NewBlockFromBytes buf = inl parsed /\ blk = SetHeight parsed h) /\
  (forall bh,
     FetchBlockHeaderBySha shaBlkToKey int64ToKey BlockHeader ParseError
       Deserialize db sha = Ret (Some bh, None) ->
     exists buf h,
       fetchSha shaBlkToKey int64ToKey db sha = Ret (buf, h, None) /\
       Deserialize buf = inl bh).
Proof.
  unfold FetchBlockBySha, fetchBlockBySha, FetchBlockHeaderBySha.
  split; [|split].
  - intros e He. unfold fetchSha, getBlk.
    destruct (getBlkLoc shaBlkToKey db sha) as [h e']. simpl in He. subst e'.
    split; reflexivity.
  - intros blk.
    destruct (fetchSha shaBlkToKey int64ToKey db sha)
      as [[[buf h] [e|]]|why]; try discriminate.
    destruct (NewBlockFromBytes buf) as [parsed|perr] eqn:E; [|discriminate].
    intros [= <-]. eauto 6.
  - intros bh.
    destruct (fetchSha shaBlkToKey int64ToKey db sha)
      as [[[buf h] [e|]]|why]; try discriminate.
    destruct (Deserialize buf) as [parsed|perr] eqn:E; [|discriminate].
    intros [= <-]. eauto.
Qed.

End Parsed.

(** ** Lookups and the pending batch *)

Lemma heightLoop_store (db1 db2 : LevelDb) (count : nat) (height : Z)
    (acc : list ShaHash) :
  lDb db1 = lDb db2 ->
  heightLoop int64ToKey db1 count height acc
  = heightLoop int64ToKey db2 count height acc.
Proof.
  intros E. revert height acc.
  induction count as [|count IH]; intros height acc; simpl; [reflexivity|].
  rewrite E. destruct (leveldb.Get (lDb db2) (int64ToKey height)) as [v [e|]];
    [reflexivity|].
  destruct (slice_to v 32); [apply IH | reflexivity].
Qed.

(** X13.  No lookup sees a staged write: an insert, successful or not, changes
    the answer of none of the lookups by hash, by height or by range; until
    the batch is committed only [NewestSha] tells that it happened. *)
Theorem lookups_ignore_pending_insert (db : LevelDb) (sha prevSha : ShaHash)
    (buf : list byte) :
  let db' := (insertBlockData shaBlkToKey int64ToKey db sha prevSha buf).1 in
  (forall s, getBlkLoc shaBlkToKey db' s = getBlkLoc shaBlkToKey db s) /\
  (forall s, ExistsSha shaBlkToKey db' s = ExistsSha shaBlkToKey db s) /\
  (forall s, fetchSha shaBlkToKey int64ToKey db' s
             = fetchSha shaBlkToKey int64ToKey db s) /\
  (forall h, fetchBlockShaByHeight int64ToKey db' h
             = fetchBlockShaByHeight int64ToKey db h) /\
  (forall a b, FetchHeightRange int64ToKey AllShas maxCap db' a b
               = FetchHeightRange int64ToKey AllShas maxCap db a b).
Proof.
  intros db'.
  assert (lDb db' = lDb db) as E.
  { unfold db'. destruct (insertBlockData_cases shaBlkToKey int64ToKey db sha
                            prevSha buf) as [(e & ->)|(d & h & Hins)];
      [reflexivity|].
    rewrite Hins. apply insertBlockData_success in Hins as [-> _].
    reflexivity. }
  assert (forall s, getBlkLoc shaBlkToKey db' s = getBlkLoc shaBlkToKey db s)
    as Hloc by (intros s; unfold getBlkLoc; rewrite E; reflexivity).
  repeat split.
  - exact Hloc.
  - intros s. unfold ExistsSha, blkExistsSha. rewrite Hloc. reflexivity.
  - intros s. unfold fetchSha, getBlk, getBlkByHeight. rewrite Hloc, E.
    reflexivity.
  - intros h. unfold fetchBlockShaByHeight. rewrite E. reflexivity.
  - intros a b. unfold FetchHeightRange.
    rewrite (heightLoop_store db' db _ _ _ E). reflexivity.
Qed.

(** ** Ranges and point lookups *)

Lemma heightLoop_spec (db : LevelDb) (count : nat) (height : Z)
    (acc l : list ShaHash) :
  - 2 ^ 63 <= height -> height + Z.of_nat count < 2 ^ 63 ->
  heightLoop int64ToKey db count height acc = Ret l ->
  exists found,
    l = acc ++ found /\ (length found <= count)%nat /\
    (forall (i : nat) sha, found !! i = Some sha ->
       fetchBlockShaByHeight int64ToKey db (height + Z.of_nat i)
       = Ret (Some sha, None)) /\
    ((length found < count)%nat ->
     exists e, fetchBlockShaByHeight int64ToKey db
                 (height + Z.of_nat (length found)) = Ret (None, Some e)).
Proof.
  revert height acc. induction count as [|count IH]; intros height acc Hlo Hhi.
  - simpl. intros [= <-]. exists []. rewrite app_nil_r.
    split; [reflexivity|]. split; [simpl; lia|]. split.
    + intros i sha Hi. rewrite lookup_nil in Hi. discriminate.
    + simpl. lia.
  - simpl. destruct (leveldb.Get (lDb db) (int64ToKey height)) as [v [e|]] eqn:Hg.
    + intros [= <-]. exists []. rewrite app_nil_r.
      split; [reflexivity|]. split; [simpl; lia|]. split.
      * intros i sha Hi. rewrite lookup_nil in Hi. discriminate.
      * intros _. exists e. simpl. rewrite Z.add_0_r.
        unfold fetchBlockShaByHeight. rewrite Hg. reflexivity.
    + destruct (slice_to v 32) as [prefix|why] eqn:Hs; [|discriminate].
      rewrite wrap64_id by (unfold int64_range; lia).
      intros Hl. apply IH in Hl as (found & -> & Hlen & Hall & Hgap); [|lia..].
      exists (SetBytes zeroSha prefix :: found).
      rewrite <- app_assoc. split; [reflexivity|].
      split; [simpl; lia|]. split.
      * intros [|i] sha Hi; simpl in Hi.
        -- injection Hi as <-. rewrite Z.add_0_r.
           unfold fetchBlockShaByHeight. rewrite Hg, Hs. reflexivity.
        -- replace (height + Z.of_nat (S i)) with (height + 1 + Z.of_nat i)
             by lia.
           apply Hall. exact Hi.
      * intros Hlt. simpl in Hlt.
        destruct Hgap as [e He]; [lia|]. exists e.
        replace (height + Z.of_nat (length (SetBytes zeroSha prefix :: found)))
          with (height + 1 + Z.of_nat (length found))
          by (rewrite length_cons; lia).
        exact He.
Qed.

(** X14.  Whenever [FetchHeightRange] returns, its error is [nil] and its list
    is what the point lookup gives height by height: the hash at position [i]
    is the hash [fetchBlockShaByHeight] returns for [start + i]; the list is
    no longer than the range; and when it is shorter, the point lookup of the
    first height left out fails.  The effective end is [start + 500], in
    64-bit arithmetic, when the end given is [AllShas]. *)
Theorem range_agrees_with_point_lookups (db : LevelDb)
    (startHeight endHeight : Z) (shalist : list ShaHash)
    (err : option error) :
  int64_range startHeight -> int64_range endHeight ->
  FetchHeightRange int64ToKey AllShas maxCap db startHeight endHeight
  = Ret (shalist, err) ->
  let endidx := if endHeight =? AllShas then wrap64 (startHeight + 500)
                else endHeight in
  err = None /\
  Z.of_nat (length shalist) <= Z.max 0 (endidx - startHeight) /\
  (forall (i : nat) sha, shalist !! i = Some sha ->
     fetchBlockShaByHeight int64ToKey db (startHeight + Z.of_nat i)
     = Ret (Some sha, None)) /\
  (Z.of_nat (length shalist) < endidx - startHeight ->
   exists e, fetchBlockShaByHeight int64ToKey db
               (startHeight + Z.of_nat (length shalist))
             = Ret (None, Some e)).
Proof.
  intros Hs He. unfold FetchHeightRange.
  set (endidx := if endHeight =? AllShas then wrap64 (startHeight + 500)
                 else endHeight).
  assert (int64_range endidx) as Hend.
  { unfold endidx. destruct (endHeight =? AllShas);
      [apply wrap64_range | exact He]. }
  destruct (makeslice_ok maxCap (wrap64 (endidx - startHeight)));
    [|discriminate].
  destruct (heightLoop int64ToKey db (Z.to_nat (endidx - startHeight))
              startHeight []) as [l|why] eqn:Hl; [|discriminate].
  intros [= <- <-]. cbv zeta.
  unfold int64_range in Hs, Hend.
  apply heightLoop_spec in Hl as (found & -> & Hlen & Hall & Hgap); [|lia..].
  simpl. split; [reflexivity|]. split; [lia|]. split; [exact Hall|].
  intros Hlt. apply Hgap. lia.
Qed.

(** When every payload stored under a height key has its thirty-two bytes,
    the loop does not panic. *)
Lemma heightLoop_returns (db : LevelDb) (count : nat) (height : Z)
    (acc : list ShaHash) :
  (forall h v, leveldb.Get (lDb db) (int64ToKey h) = (v, None) ->
               (32 <= length v)%nat) ->
  exists l, heightLoop int64ToKey db count height acc = Ret l.
Proof.
  intros Hlong. revert height acc.
  induction count as [|count IH]; intros height acc; simpl; [eauto|].
  destruct (leveldb.Get (lDb db) (int64ToKey height)) as [v [e|]] eqn:Hg;
    [eauto|].
  unfold slice_to. destruct (Nat.leb_spec 32 (length v)) as [_|Hlt].
  - apply IH.
  - specialize (Hlong _ _ Hg). lia.
Qed.

(** When every height of the range has an entry of at least thirty-two
    bytes, the loop returns one hash per height. *)
Lemma heightLoop_filled (db : LevelDb) (count : nat) (height : Z)
    (acc : list ShaHash) :
  - 2 ^ 63 <= height -> height + Z.of_nat count < 2 ^ 63 ->
  (forall k, height <= k < height + Z.of_nat count ->
     exists v, leveldb.Get (lDb db) (int64ToKey k) = (v, None) /\
               (32 <= length v)%nat) ->
  exists l, heightLoop int64ToKey db count height acc = Ret l /\
            length l = (length acc + count)%nat.
Proof.
  revert height acc. induction count as [|count IH];
    intros height acc Hlo Hhi Hall; simpl.
  - exists acc. split; [reflexivity | lia].
  - destruct (Hall height ltac:(lia)) as (v & Hg & Hv). rewrite Hg.
    unfold slice_to. destruct (Nat.leb_spec 32 (length v)) as [_|Hlt]; [|lia].
    rewrite wrap64_id by (unfold int64_range; lia).
    destruct (IH (height + 1) (acc ++ [SetBytes zeroSha (take 32 v)]))
      as (l & Hl & Hlen); [lia | lia | |].
    + intros k Hk. apply Hall. lia.
    + exists l. split; [exact Hl|]. rewrite Hlen, length_app. simpl. lia.
Qed.

(** ** Stores built by inserts *)

Section Built.

Hypothesis keys_disjoint : forall sha h, shaBlkToKey sha <> int64ToKey h.

Lemma built_payloads_long (ops : list op) (h : Z) (v : list byte) :
  leveldb.Get (lDb (run shaBlkToKey int64ToKey emptyDb ops)) (int64ToKey h)
  = (v, None) ->
  (32 <= length v)%nat.
Proof.
  intros Hg. apply Get_found in Hg as [_ Hg].
  pose proof (run_paired shaBlkToKey int64ToKey keys_disjoint emptyDb ops
                (emptyDb_paired shaBlkToKey int64ToKey _)) as [[_ H2] _].
  destruct (H2 h v Hg) as (sha & buf & -> & _).
  rewrite length_app, length_Bytes. lia.
Qed.

(** X15.  On a store built from the empty one by inserts and commits a range
    lookup panics for one reason only, the capacity handed to [make]: when
    that is accepted the call returns a list and no error, the extraction of
    every hash being within bounds. *)
Theorem range_returns_on_built_store (ops : list op)
    (startHeight endHeight : Z) :
  let db := run shaBlkToKey int64ToKey emptyDb ops in
  let endidx := if endHeight =? AllShas then wrap64 (startHeight + 500)
                else endHeight in
  (makeslice_ok maxCap (wrap64 (endidx - startHeight)) = true ->
   exists shalist,
     FetchHeightRange int64ToKey AllShas maxCap db startHeight endHeight
     = Ret (shalist, None)) /\
  (makeslice_ok maxCap (wrap64 (endidx - startHeight)) = false ->
   FetchHeightRange int64ToKey AllShas maxCap db startHeight endHeight
   = Panic "makeslice: cap out of range").
Proof.
  intros db endidx. unfold FetchHeightRange. fold endidx.
  destruct (makeslice_ok maxCap (wrap64 (endidx - startHeight)));
    split; try discriminate; intros _; [|reflexivity].
  destruct (heightLoop_returns db (Z.to_nat (endidx - startHeight))
              startHeight []) as [l ->].
  - intros h v. apply built_payloads_long.
  - eauto.
Qed.

(** ** Contiguity *)

Lemma filledBelow_mono (t t' : gmap (list byte) (list byte)) (n n' h : Z) :
  (forall k, is_Some (t !! k) -> is_Some (t' !! k)) -> n <= n' ->
  filledBelow int64ToKey t n h -> filledBelow int64ToKey t' n' h.
Proof.
  intros Hkeep Hn [Hh Hfill]. split; [lia|].
  intros k Hk. apply Hkeep, Hfill, Hk.
Qed.

Lemma filledBelow_range (t : gmap (list byte) (list byte)) (n h : Z) :
  n < 2 ^ 63 -> filledBelow int64ToKey t n h -> int64_range h.
Proof. intros Hn [Hh _]. unfold int64_range. lia. Qed.

(** One operation keeps the heights of the hash index below the number of
    operations so far, each with every height under it occupied. *)
Lemma step_filled (n : Z) (db : LevelDb) (o : op) :
  0 <= n -> n + 1 < 2 ^ 63 ->
  paired shaBlkToKey int64ToKey
    (filledBelow int64ToKey (leveldb.table (lDb db)) n) db ->
  paired shaBlkToKey int64ToKey
    (filledBelow int64ToKey
       (leveldb.table (lDb (step shaBlkToKey int64ToKey db o))) (n + 1))
    (step shaBlkToKey int64ToKey db o).
Proof.
  intros Hn Hlt [Ht Hb].
  set (T := leveldb.table (lDb db)) in *.
  assert (forall h, filledBelow int64ToKey T n h ->
                    filledBelow int64ToKey T (n + 1) h) as Hmono
    by (intros h; apply filledBelow_mono; [auto | lia]).
  assert (paired shaBlkToKey int64ToKey (filledBelow int64ToKey T (n + 1)) db)
    as Hsame.
  { split; [eapply wellPaired_mono | eapply pairsBatch_mono]; eauto. }
  destruct o as [sha prevSha buf|]; simpl.
  - destruct (insertBlockData_cases shaBlkToKey int64ToKey db sha prevSha buf)
      as [(e & ->)|(db' & h & Hins)]; [exact Hsame|].
    rewrite Hins. simpl.
    apply insertBlockData_success in Hins as [-> Hh]. simpl. fold T.
    split; simpl; [apply Hsame|].
    constructor; [apply Hsame|].
    destruct Hh as [(o & Hloc & ->)|(e & _ & _ & ->)].
    + destruct (paired_getBlkLoc shaBlkToKey int64ToKey
                  (filledBelow int64ToKey T n) db prevSha o
                  (fun h => filledBelow_range T n h ltac:(lia)) Ht Hloc)
        as ([Ho Hfill] & Hat & _).
      rewrite wrap64_id by (unfold int64_range; lia).
      split; [lia|]. intros k Hk.
      destruct (Z.eq_dec k o) as [->|Hne]; [exact Hat | apply Hfill; lia].
    + split; [simpl; lia|]. intros k Hk. simpl in Hk. lia.
  - pose proof (commit_spec db) as Hc. cbv zeta in Hc.
    destruct Hc as (_ & _ & _ & _ & [(_ & _ & Hd & Hl)|(msg & _ & _ & ->)]);
      [|exact Hsame].
    unfold paired. rewrite Hd, Hl. simpl. fold T. split; [|constructor].
    apply (wellPaired_mono shaBlkToKey int64ToKey
             (filledBelow int64ToKey T n)).
    + intros h. apply filledBelow_mono; [|lia].
      intros k. apply lookup_apply_is_Some.
    + apply (wellPaired_apply shaBlkToKey int64ToKey keys_disjoint);
        assumption.
Qed.

Lemma run_filled (ops : list op) (n : Z) (db : LevelDb) :
  0 <= n -> n + Z.of_nat (length ops) < 2 ^ 63 ->
  paired shaBlkToKey int64ToKey
    (filledBelow int64ToKey (leveldb.table (lDb db)) n) db ->
  paired shaBlkToKey int64ToKey
    (filledBelow int64ToKey
       (leveldb.table (lDb (run shaBlkToKey int64ToKey db ops)))
       (n + Z.of_nat (length ops)))
    (run shaBlkToKey int64ToKey db ops).
Proof.
  revert n db. induction ops as [|o ops IH]; intros n db Hn Hlen Hdb.
  - simpl. rewrite Z.add_0_r. exact Hdb.
  - rewrite length_cons in Hlen |- *. cbn [run fold_left].
    replace (n + Z.of_nat (S (length ops)))
      with (n + 1 + Z.of_nat (length ops)) by lia.
    apply IH; [lia | lia |]. apply step_filled; [lia | lia | exact Hdb].
Qed.

(** X16.  Contiguity: in every state reached from the empty store by a
    history of inserts and commits (shorter than [2^63]), the height found
    for any hash is at least [0] and less than the length of the history, and
    every height from [0] up to it has a height-index entry that
    [getBlkByHeight] and [fetchBlockShaByHeight] read: the occupied heights
    have no hole. *)
Theorem chain_is_contiguous (ops : list op) (sha : ShaHash) (h : Z) :
  Z.of_nat (length ops) < 2 ^ 63 ->
  getBlkLoc shaBlkToKey (run shaBlkToKey int64ToKey emptyDb ops) sha
  = (h, None) ->
  0 <= h < Z.of_nat (length ops) /\
  forall k, 0 <= k <= h ->
    exists sha' buf,
      getBlkByHeight int64ToKey (run shaBlkToKey int64ToKey emptyDb ops) k
      = Ret (Some sha', buf, None) /\
      fetchBlockShaByHeight int64ToKey
        (run shaBlkToKey int64ToKey emptyDb ops) k
      = Ret (Some sha', None).
Proof.
  intros Hlen Hloc.
  pose proof (run_filled ops 0 emptyDb ltac:(lia) ltac:(lia)
                (emptyDb_paired shaBlkToKey int64ToKey _)) as [Ht _].
  rewrite Z.add_0_l in Ht.
  set (db := run shaBlkToKey int64ToKey emptyDb ops) in *.
  destruct (paired_getBlkLoc shaBlkToKey int64ToKey _ db sha h
              (fun h => filledBelow_range _ _ h Hlen) Ht Hloc)
    as ([Hh Hfill] & Hat & Hb).
  split; [exact Hh|]. intros k Hk.
  assert (is_Some (leveldb.table (lDb db) !! int64ToKey k)) as [v Hv].
  { destruct (Z.eq_dec k h) as [->|Hne]; [exact Hat | apply Hfill; lia]. }
  destruct Ht as [_ H2].
  destruct (H2 k v Hv) as (sha' & buf & -> & _).
  assert (leveldb.Get (lDb db) (int64ToKey k) = (Bytes sha' ++ buf, None))
    as Hg by (apply Get_found; auto).
  exists sha', buf. split; [apply getBlkByHeight_entry; exact Hg|].
  destruct (fetchBlockShaByHeight_entry int64ToKey db k _ Hg) as [-> _].
  - rewrite length_app, length_Bytes. lia.
  - rewrite take_app_length' by (symmetry; apply length_Bytes).
    rewrite SetBytes_Bytes. reflexivity.
Qed.

(** X17.  On such a store the range from height [0] to just above the height
    found for any hash returns exactly one hash per height, as long as [make]
    accepts the capacity and the end is not the open-end sentinel. *)
Theorem range_covers_chain (ops : list op) (sha : ShaHash) (h : Z) :
  Z.of_nat (length ops) < 2 ^ 63 ->
  getBlkLoc shaBlkToKey (run shaBlkToKey int64ToKey emptyDb ops) sha
  = (h, None) ->
  h + 1 <= maxCap -> h + 1 <> AllShas ->
  exists shalist,
    FetchHeightRange int64ToKey AllShas maxCap
      (run shaBlkToKey int64ToKey emptyDb ops) 0 (h + 1)
    = Ret (shalist, None) /\
    Z.of_nat (length shalist) = h + 1.
Proof.
  intros Hlen Hloc Hcap Hne.
  pose proof (run_filled ops 0 emptyDb ltac:(lia) ltac:(lia)
                (emptyDb_paired shaBlkToKey int64ToKey _)) as [Ht _].
  rewrite Z.add_0_l in Ht.
  set (db := run shaBlkToKey int64ToKey emptyDb ops) in *.
  destruct (paired_getBlkLoc shaBlkToKey int64ToKey _ db sha h
              (fun h => filledBelow_range _ _ h Hlen) Ht Hloc)
    as ([Hh Hfill] & Hat & Hb).
  unfold FetchHeightRange, makeslice_ok.
  destruct (Z.eqb_spec (h + 1) AllShas) as [E|_]; [contradiction|].
  rewrite Z.sub_0_r. rewrite wrap64_id by (unfold int64_range; lia).
  destruct (Z.leb_spec 0 (h + 1)); [|lia].
  destruct (Z.leb_spec (h + 1) maxCap); [|lia]. simpl.
  destruct (heightLoop_filled db (Z.to_nat (h + 1)) 0 [])
    as (l & -> & Hl); [lia | lia | |].
  - intros k Hk.
    assert (is_Some (leveldb.table (lDb db) !! int64ToKey k)) as [v Hv].
    { destruct (Z.eq_dec k h) as [->|Hnk]; [exact Hat | apply Hfill; lia]. }
    destruct Ht as [_ H2].
    destruct (H2 k v Hv) as (sha' & buf & -> & _).
    exists (Bytes sha' ++ buf). split; [apply Get_found; auto|].
    rewrite length_app, length_Bytes. lia.
  - exists l. split; [reflexivity|]. rewrite Hl. simpl. lia.
Qed.

(** ** A height assigned twice *)

(** X18.  No guard keeps a height from being assigned twice.  When an insert
    that returned height [h] is committed and a later insert, returning the
    same [h] (its predecessor being at [h - 1] too), is committed in turn, the
    later block takes the height over: the hash at [h] is the later hash, and
    the earlier hash, still found at height [h], now fetches the record of the
    later block. *)
Theorem later_block_takes_height (db1 db2 db3 db4 db5 : LevelDb)
    (sha1 prev1 sha2 prev2 : ShaHash) (buf1 buf2 : list byte) (h : Z) :
  insertBlockData shaBlkToKey int64ToKey db1 sha1 prev1 buf1
  = (db2, (h, None)) ->
  commit db2 = (db3, None) ->
  insertBlockData shaBlkToKey int64ToKey db3 sha2 prev2 buf2
  = (db4, (h, None)) ->
  commit db4 = (db5, None) ->
  fetchBlockShaByHeight int64ToKey db5 h = Ret (Some sha2, None) /\
  getBlkLoc shaBlkToKey db5 sha1 = (h, None) /\
  fetchSha shaBlkToKey int64ToKey db5 sha1 = Ret (buf2, h, None).
Proof.
  intros Hins1 Hc1 Hins2 Hc2.
  destruct (committed_insert_entries _ _ _ _ _ _ _ Hins1 Hc1)
    as (Hh & _ & Hsha1).
  specialize (Hsha1 (keys_disjoint _ _)).
  destruct (committed_insert_entries _ _ _ _ _ _ _ Hins2 Hc2)
    as (_ & Hblk & _).
  apply Get_found in Hsha1 as [_ Hsha1].
  assert (lbatch db3 = []) as Hempty.
  { pose proof (commit_spec db2) as Hc. rewrite Hc1 in Hc. simpl in Hc.
    destruct Hc as (_ & _ & _ & _ & [(_ & _ & _ & Hl)|(msg & _ & [=] & _)]).
    exact Hl. }
  apply insertBlockData_success in Hins2 as [-> _].
  pose proof (commit_spec
    (mkLevelDb (lDb db3)
       (lbatch db3 ++ entryPair shaBlkToKey int64ToKey sha2 h buf2)
       true sha2 h (wrap64 (h + 1)))) as Hc.
  rewrite Hc2 in Hc. simpl in Hc.
  destruct Hc as (_ & _ & _ & _ & [(Hb & _ & Hd & _)|(msg & _ & [=] & _)]).
  rewrite Hempty in Hd. unfold entryPair, leveldb.apply in Hd. simpl in Hd.
  assert (getBlkLoc shaBlkToKey db5 sha1 = (h, None)) as Hloc.
  { apply getBlkLoc_found. exists (putUintLE 8 (uint64 h)). split.
    - apply Get_found. rewrite Hd. simpl. split; [reflexivity|].
      rewrite lookup_insert_ne
        by (intros E; exact (keys_disjoint _ _ (eq_sym E))).
      rewrite lookup_insert. case_decide; [reflexivity | exact Hsha1].
    - rewrite <- (app_nil_r (putUintLE 8 (uint64 h))).
      apply binary_Read_putUintLE. exact Hh. }
  split; [|split; [exact Hloc|]].
  - destruct (fetchBlockShaByHeight_entry int64ToKey db5 h _ Hblk) as [-> _].
    + rewrite length_app, length_Bytes. lia.
    + rewrite take_app_length' by (symmetry; apply length_Bytes).
      rewrite SetBytes_Bytes. reflexivity.
  - unfold fetchSha, getBlk. rewrite Hloc.
    rewrite (getBlkByHeight_entry _ _ _ _ _ Hblk). reflexivity.
Qed.

End Built.

End Coverage.

(** * Instances of the further properties *)

(** X1, an instance: height [5], one more byte after the eight. *)
Lemma height_encoding_roundtrip_witness :
  exists lw, binary_Write 5 = Some lw /\ length lw = 8%nat /\
             binary_Read (lw ++ [Byte.x00]) = Some 5.
Proof.
  apply (height_encoding_roundtrip 5 [Byte.x00]). unfold int64_range. lia.
Defined.

(** X3, an instance: a block on the committed genesis block gets height
    [1]. *)
Lemma insert_on_known_predecessor_witness :
  (insertBlockData Sample.shaBlkToKey Sample.int64ToKey Sample.nonEmptyDb
     Sample.shaB Sample.shaA Sample.recB).2 = (wrap64 (0 + 1), None).
Proof.
  apply (insert_on_known_predecessor Sample.shaBlkToKey Sample.int64ToKey
           Sample.nonEmptyDb Sample.shaB Sample.shaA Sample.recB 0).
  vm_compute. reflexivity.
Defined.

(** X4, an instance: on a handle whose next height is [0], a predecessor with
    a corrupt hash-index entry is passed over and the block becomes the
    genesis block. *)
Lemma insert_on_failed_predecessor_lookup_witness :
  (getBlkLoc Sample.shaBlkToKey Sample.damagedDb Sample.shaA).2
  = Some ErrDbCorrupt0 /\
  (insertBlockData Sample.shaBlkToKey Sample.int64ToKey Sample.damagedDb
     Sample.shaB Sample.shaA Sample.recB).2 = (0, None).
Proof.
  assert ((getBlkLoc Sample.shaBlkToKey Sample.damagedDb Sample.shaA).2
          = Some ErrDbCorrupt0) as He by (vm_compute; reflexivity).
  split; [exact He|].
  apply (insert_on_failed_predecessor_lookup Sample.shaBlkToKey
           Sample.int64ToKey Sample.damagedDb Sample.shaB Sample.shaA
           Sample.recB ErrDbCorrupt0 He).
  vm_compute. reflexivity.
Defined.

(** X5, an instance: the rejected insert on the store holding the genesis
    block. *)
Lemma insert_fails_only_on_lookup_witness :
  (getBlkLoc Sample.shaBlkToKey Sample.nonEmptyDb Sample.shaX).2
  = Some ErrNotFound /\
  nextBlock Sample.nonEmptyDb <> 0.
Proof.
  assert ((insertBlockData Sample.shaBlkToKey Sample.int64ToKey
             Sample.nonEmptyDb Sample.shaB Sample.shaX Sample.recB).2.2
          = Some ErrNotFound) as He by (vm_compute; reflexivity).
  pose proof (insert_fails_only_on_lookup Sample.shaBlkToKey Sample.int64ToKey
                Sample.nonEmptyDb Sample.shaB Sample.shaX Sample.recB
                ErrNotFound He) as (H1 & H2 & _).
  split; assumption.
Defined.

(** X6, an instance: a second genesis block right after the first, before any
    commit. *)
Lemma genesis_only_once_witness :
  insertBlockData Sample.shaBlkToKey Sample.int64ToKey Cases.genesisStaged
    Sample.shaB Sample.shaX Sample.recB
  = (Cases.genesisStaged, (0, Some ErrNotFound)).
Proof.
  assert (insertBlockData Sample.shaBlkToKey Sample.int64ToKey emptyDb
            Sample.shaA Sample.shaX Sample.recA
          = (Cases.genesisStaged, (0, None))) as Hins
    by (vm_compute; reflexivity).
  assert (0 <> -1) as Hne by lia.
  assert ((leveldb.Get (lDb emptyDb) (Sample.shaBlkToKey Sample.shaX)).2
          = Some ErrNotFound) as Hget by (vm_compute; reflexivity).
  exact (proj1 (genesis_only_once Sample.shaBlkToKey Sample.int64ToKey
                  emptyDb Cases.genesisStaged Sample.shaA Sample.shaX
                  Sample.recA 0 Sample.shaB Sample.shaX Sample.recB
                  Hins Hne Hget)).
Defined.

(** X7, an instance: a block inserted on a predecessor stored at height [-2]
    gets height [-1] and is reported as the empty chain. *)
Lemma newest_after_insert_witness :
  (insertBlockData Sample.shaBlkToKey Sample.int64ToKey Cases.belowZeroDb
     Sample.shaB Sample.shaA Sample.recB).2 = (-1, None) /\
  NewestSha (insertBlockData Sample.shaBlkToKey Sample.int64ToKey
               Cases.belowZeroDb Sample.shaB Sample.shaA Sample.recB).1
  = (zeroSha, -1, None).
Proof.
  assert (insertBlockData Sample.shaBlkToKey Sample.int64ToKey
            Cases.belowZeroDb Sample.shaB Sample.shaA Sample.recB
          = ((insertBlockData Sample.shaBlkToKey Sample.int64ToKey
                Cases.belowZeroDb Sample.shaB Sample.shaA Sample.recB).1,
             (-1, None))) as Hins by (vm_compute; reflexivity).
  split; [vm_compute; reflexivity|].
  exact (proj1 (proj1 (proj2 (newest_after_insert Sample.shaBlkToKey
                                Sample.int64ToKey Cases.belowZeroDb _
                                Sample.shaB Sample.shaA Sample.recB (-1) Hins))
                  eq_refl)).
Defined.

(** X8, an instance: the committed genesis block. *)
Lemma committed_block_is_indexed_witness :
  fetchBlockShaByHeight Sample.int64ToKey Sample.nonEmptyDb 0
  = Ret (Some Sample.shaA, None) /\
  FetchBlockHeightBySha Sample.shaBlkToKey Sample.nonEmptyDb Sample.shaA
  = (0, None).
Proof.
  assert (insertBlockData Sample.shaBlkToKey Sample.int64ToKey emptyDb
            Sample.shaA Sample.shaX Sample.recA
          = (Cases.genesisStaged, (0, None))) as Hins
    by (vm_compute; reflexivity).
  assert (commit Cases.genesisStaged = (Sample.nonEmptyDb, None)) as Hc
    by (vm_compute; reflexivity).
  destruct (committed_block_is_indexed Sample.shaBlkToKey Sample.int64ToKey
              emptyDb Cases.genesisStaged Sample.nonEmptyDb Sample.shaA
              Sample.shaX Sample.recA 0 Hins Hc) as (H1 & _ & H3).
  split; [exact H1|]. apply H3. apply sample_keys_disjoint.
Defined.

(** X11, an instance: the committed genesis block, with the sample parser. *)
Lemma committed_block_is_parsed_witness :
  FetchBlockBySha Sample.shaBlkToKey Sample.int64ToKey Cases.Block
    Cases.ParseError Cases.NewBlockFromBytes Cases.SetHeight
    Sample.nonEmptyDb Sample.shaA
  = Ret (Some (Sample.recA, 0), None) /\
  FetchBlockHeaderBySha Sample.shaBlkToKey Sample.int64ToKey Cases.BlockHeader
    Cases.ParseError Cases.Deserialize Sample.nonEmptyDb Sample.shaA
  = Ret (Some [Byte.x01; Byte.x02], None).
Proof.
  assert (insertBlockData Sample.shaBlkToKey Sample.int64ToKey emptyDb
            Sample.shaA Sample.shaX Sample.recA
          = (Cases.genesisStaged, (0, None))) as Hins
    by (vm_compute; reflexivity).
  assert (commit Cases.genesisStaged = (Sample.nonEmptyDb, None)) as Hc
    by (vm_compute; reflexivity).
  exact (committed_block_is_parsed Sample.shaBlkToKey Sample.int64ToKey
           Cases.Block Cases.BlockHeader Cases.ParseError
           Cases.NewBlockFromBytes Cases.SetHeight Cases.Deserialize
           emptyDb Cases.genesisStaged Sample.nonEmptyDb Sample.shaA
           Sample.shaX Sample.recA 0 Hins Hc (sample_keys_disjoint _ _)).
Defined.

(** X14, an instance: the open-ended range from height [1] over the chain of
    three blocks; its first hash is the point lookup of height [1], and the
    point lookup of height [3], the first one left out, fails. *)
Lemma range_agrees_with_point_lookups_witness :
  fetchBlockShaByHeight Sample.int64ToKey
    (run Sample.shaBlkToKey Sample.int64ToKey emptyDb Sample.chainOps)
    (1 + Z.of_nat 0)
  = Ret (Some Sample.shaB, None) /\
  exists e,
    fetchBlockShaByHeight Sample.int64ToKey
      (run Sample.shaBlkToKey Sample.int64ToKey emptyDb Sample.chainOps)
      (1 + Z.of_nat 2)
    = Ret (None, Some e).
Proof.
  assert (int64_range 1) as H1 by (unfold int64_range; lia).
  assert (int64_range Sample.AllShas) as H2
    by (unfold int64_range, Sample.AllShas; lia).
  pose proof (range_agrees_with_point_lookups Sample.int64ToKey
                Sample.AllShas Sample.maxCap
                (run Sample.shaBlkToKey Sample.int64ToKey emptyDb
                   Sample.chainOps)
                1 Sample.AllShas [Sample.shaB; Sample.shaC] None H1 H2
                range_open_end_example) as (_ & _ & Hall & Hgap).
  split.
  - apply (Hall 0%nat). reflexivity.
  - apply Hgap. vm_compute. reflexivity.
Defined.

(** X15, an instance: a range over the store of the fork history. *)
Lemma range_returns_on_built_store_witness :
  exists shalist,
    FetchHeightRange Sample.int64ToKey Sample.AllShas Sample.maxCap
      (run Sample.shaBlkToKey Sample.int64ToKey emptyDb Sample.forkOps) 0 5
    = Ret (shalist, None).
Proof.
  apply (proj1 (range_returns_on_built_store Sample.shaBlkToKey
                  Sample.int64ToKey Sample.AllShas Sample.maxCap
                  sample_keys_disjoint Sample.forkOps 0 5)).
  vm_compute. reflexivity.
Defined.

(** X16, an instance: the chain of three blocks, from its last hash. *)
Lemma chain_is_contiguous_witness :
  0 <= 2 < Z.of_nat (length Sample.chainOps) /\
  forall k, 0 <= k <= 2 ->
    exists sha' buf,
      getBlkByHeight Sample.int64ToKey
        (run Sample.shaBlkToKey Sample.int64ToKey emptyDb Sample.chainOps) k
      = Ret (Some sha', buf, None) /\
      fetchBlockShaByHeight Sample.int64ToKey
        (run Sample.shaBlkToKey Sample.int64ToKey emptyDb Sample.chainOps) k
      = Ret (Some sha', None).
Proof.
  apply (chain_is_contiguous Sample.shaBlkToKey Sample.int64ToKey
           sample_keys_disjoint Sample.chainOps Sample.shaC 2);
    vm_compute; reflexivity.
Defined.

(** X17, an instance: the whole chain of three blocks as a range. *)
Lemma range_covers_chain_witness :
  exists shalist,
    FetchHeightRange Sample.int64ToKey Sample.AllShas Sample.maxCap
      (run Sample.shaBlkToKey Sample.int64ToKey emptyDb Sample.chainOps)
      0 (2 + 1)
    = Ret (shalist, None) /\
    Z.of_nat (length shalist) = 2 + 1.
Proof.
  apply (range_covers_chain Sample.shaBlkToKey Sample.int64ToKey
           Sample.AllShas Sample.maxCap sample_keys_disjoint
           Sample.chainOps Sample.shaC 2).
  - vm_compute. reflexivity.
  - vm_compute. reflexivity.
  - unfold Sample.maxCap. lia.
  - unfold Sample.AllShas. lia.
Defined.

(** X18, an instance: the fork history; the hash of the first child fetches
    the record of the second. *)
Lemma later_block_takes_height_witness :
  fetchBlockShaByHeight Sample.int64ToKey
    (run Sample.shaBlkToKey Sample.int64ToKey emptyDb Sample.forkOps) 1
  = Ret (Some Sample.shaC, None) /\
  getBlkLoc Sample.shaBlkToKey
    (run Sample.shaBlkToKey Sample.int64ToKey emptyDb Sample.forkOps)
    Sample.shaB = (1, None) /\
  fetchSha Sample.shaBlkToKey Sample.int64ToKey
    (run Sample.shaBlkToKey Sample.int64ToKey emptyDb Sample.forkOps)
    Sample.shaB = Ret (Sample.recC, 1, None).
Proof.
  apply (later_block_takes_height Sample.shaBlkToKey Sample.int64ToKey
           sample_keys_disjoint
           Sample.nonEmptyDb
           (run Sample.shaBlkToKey Sample.int64ToKey emptyDb
              (take 3 Sample.forkOps))
           (run Sample.shaBlkToKey Sample.int64ToKey emptyDb
              (take 4 Sample.forkOps))
           (run Sample.shaBlkToKey Sample.int64ToKey emptyDb
              (take 5 Sample.forkOps))
           (run Sample.shaBlkToKey Sample.int64ToKey emptyDb Sample.forkOps)
           Sample.shaB Sample.shaA Sample.shaC Sample.shaA
           Sample.recB Sample.recC 1);
    vm_compute; reflexivity.
Defined.
